(** * agent_stdio_multi_agent.py: a shallow embedding

    The script wires an orchestrator agent to an MCP tool server reached over
    stdio, a weather sub-agent exposed as a tool, and a sliding conversation
    window.  The embedding keeps the control flow of the script (credential
    checks, the [with] scope, the interactive loop and its two handlers, the
    [try]/[except] of the sub-agent wrapper) and takes everything that is
    decided outside the script (what the user types, what the model backend
    answers or raises and which tools it uses, whether the MCP server
    starts, whether a text can be written to the standard output) from an
    explicit [world]. *)

From stdpp Require Import gmap strings list fin_maps.
From Stdlib Require Import ssreflect Ascii ZArith.

Open Scope string_scope.
Open Scope list_scope.

(** ** The fragment of Python the script relies on *)

Module Py.

(** Exception classes.  [KeyboardInterrupt], [SystemExit] and
    [GeneratorExit] derive from [BaseException] only; every other class the
    script can meet ([ValueError], [EOFError], the errors of the model
    backend, of the HTTP tool, of the MCP client, ...) derives from
    [Exception]. *)
Inductive exn_class : Type :=
| KeyboardInterrupt
| SystemExit
| GeneratorExit
| ExceptionSubclass (name : string).

Record exn : Type := Exn { exn_cls : exn_class; exn_msg : string }.

(** [isinstance(e, Exception)] *)
Definition isinstance_Exception (e : exn) : bool :=
  match exn_cls e with
  | ExceptionSubclass _ => true
  | _ => false
  end.

(** [isinstance(e, KeyboardInterrupt)] *)
Definition isinstance_KeyboardInterrupt (e : exn) : bool :=
  match exn_cls e with
  | KeyboardInterrupt => true
  | _ => false
  end.

(** [str(e)] *)
Definition str_exn (e : exn) : string := exn_msg e.

Definition ValueError (msg : string) : exn :=
  Exn (ExceptionSubclass "ValueError") msg.

(** The result of evaluating an expression: a value or a raised exception. *)
Inductive result (A : Type) : Type :=
| Ok (a : A)
| Raised (e : exn).
Arguments Ok {A} a.
Arguments Raised {A} e.

(** Truth value of an [Optional[str]]: [None] and the empty string are
    falsy. *)
Definition truthy (o : option string) : bool :=
  match o with
  | Some (String _ _) => true
  | Some EmptyString => false
  | None => false
  end.

(** [str.lower] on a line given by its bytes: an upper-case ASCII letter
    becomes its lower-case form and every other byte is left as it is.  The
    test of line 141 compares the result with the ASCII words "exit" and
    "quit"; no character outside ASCII has a lower-case form that is one of
    their letters alone, so the test on the bytes is the test on the text. *)
Definition lower_ascii (c : ascii) : ascii :=
  let n := nat_of_ascii c in
  if (65 <=? n)%nat && (n <=? 90)%nat then ascii_of_nat (n + 32) else c.

Fixpoint lower (s : string) : string :=
  match s with
  | EmptyString => EmptyString
  | String c s' => String (lower_ascii c) (lower s')
  end.

(** [os.environ.get(name)] *)
Definition environ_get (environ : gmap string string) (name : string)
  : option string := environ !! name.

End Py.

Import Py.

(** ** Objects of the script *)

Inductive tool : Type :=
| MCPAgentTool (name : string)   (* a tool listed by the MCP server *)
| weather_assistant_tool         (* the @tool-decorated weather_assistant *)
| http_request
| shell.

Global Instance tool_eq_dec : EqDecision tool.
Proof. solve_decision. Defined.

Record StdioServerParameters : Type := {
  command : string;
  args : list string;
  env : gmap string string
}.

Record SlidingWindowConversationManager : Type := { window_size : nat }.

(** A value of the [model_config] dict: a string, an integer, or a decimal
    number [mantissa * 10 ^ exponent]. *)
Inductive config_value : Type :=
| ConfigStr (s : string)
| ConfigInt (n : Z)
| ConfigDecimal (mantissa exponent : Z).

(** [BedrockModel(model_config=..)]: the object keeps the one keyword it was
    given; what the library reads from the dict is its own business. *)
Record BedrockModel : Type := { model_config : gmap string config_value }.

Inductive role : Type := user | assistant.

Record message : Type := { msg_role : role; msg_content : string }.

(** An [Agent] object: its configuration and its message history. *)
Record Agent : Type := {
  system_prompt : string;
  tools : list tool;
  model : option BedrockModel;
  conversation_manager_of : option SlidingWindowConversationManager;
  messages : list message
}.

(** [Agent(system_prompt=.., tools=.., model=.., conversation_manager=..)]:
    a new object with an empty history. *)
Definition Agent_new (sp : string) (ts : list tool) (m : option BedrockModel)
    (cm : option SlidingWindowConversationManager) : Agent :=
  {| system_prompt := sp; tools := ts; model := m;
     conversation_manager_of := cm; messages := [] |}.

Definition set_messages (a : Agent) (ms : list message) : Agent :=
  {| system_prompt := system_prompt a; tools := tools a; model := model a;
     conversation_manager_of := conversation_manager_of a; messages := ms |}.

Record AgentResult : Type := { result_text : string }.

(** [str(response)] *)
Definition str_result (r : AgentResult) : string := result_text r.

(** What is decided outside the script.  For an agent: whether its
    construction raises; what a call [agent(input)] returns or raises,
    together with the history the call leaves in the object; and with which
    queries the model uses the tool [weather_assistant] while the call runs
    (the model chooses the tools; [weather_assistant] is the one tool whose
    body is code of the script).  For the standard output: whether writing a
    text raises ([UnicodeEncodeError] for a text the stream cannot encode,
    [OSError] on a closed stream), or not. *)
Record backend : Type := {
  agent_init : Agent -> option exn;
  agent_invoke : Agent -> string -> result AgentResult * list message;
  weather_uses : Agent -> string -> list string;
  stdout_write : string -> option exn
}.

(** ** Observable events and the process state *)

Inductive event : Type :=
| EvSessionOpen (p : StdioServerParameters)  (* __enter__ returned *)
| EvSessionClose                             (* __exit__ ran *)
| EvListTools
| EvPrint (s : string)
| EvInput (prompt : string)                  (* input(prompt) ran *)
| EvAgentCall (loc : nat) (a : Agent) (input : string).

(** The store of agent objects and the events so far. *)
Record process : Type := {
  heap : gmap nat Agent;
  trace : list event
}.

Definition init_process : process := {| heap := ∅; trace := [] |}.

(** A statement either completes with a value, raises, or is still blocked
    in [input()] where the scripted session ends. *)
Inductive status (A : Type) : Type :=
| Ret (a : A)
| Raise (e : exn)
| Blocked.
Arguments Ret {A} a.
Arguments Raise {A} e.
Arguments Blocked {A}.

Definition M (A : Type) : Type := process -> status A * process.

Global Instance M_ret : MRet M := fun A a st => (Ret a, st).

Global Instance M_bind : MBind M := fun A B f m st =>
  match m st with
  | (Ret a, st') => f a st'
  | (Raise e, st') => (Raise e, st')
  | (Blocked, st') => (Blocked, st')
  end.

Definition raise {A} (e : exn) : M A := fun st => (Raise e, st).

Definition blocked {A} : M A := fun st => (Blocked, st).

(** The two ways a statement changes the process: it appends events, or it
    binds an object in the store. *)
Definition log (st : process) (evs : list event) : process :=
  {| heap := heap st; trace := trace st ++ evs |}.

Definition store (l : nat) (a : Agent) (st : process) : process :=
  {| heap := <[l := a]> (heap st); trace := trace st |}.

Definition emit (ev : event) : M unit := fun st => (Ret tt, log st [ev]).

(** [print(s)]: the text is written, or the write raises and nothing is
    written. *)
Definition print (b : backend) (s : string) : M unit := fun st =>
  match stdout_write b s with
  | Some e => (Raise e, st)
  | None => (Ret tt, log st [EvPrint s])
  end.

Definition lift_result {A} (r : result A) : M A :=
  match r with
  | Ok a => mret a
  | Raised e => raise e
  end.

(** [try: body  except KeyboardInterrupt: on_interrupt  except Exception as
    e: on_exception e].  An exception of neither class passes through. *)
Definition try_except {A} (body : M A)
    (on_interrupt : option (M A)) (on_exception : option (exn -> M A)) : M A :=
  fun st =>
    match body st with
    | (Raise e, st') =>
        if isinstance_KeyboardInterrupt e then
          match on_interrupt with
          | Some h => h st'
          | None => (Raise e, st')
          end
        else if isinstance_Exception e then
          match on_exception with
          | Some h => h e st'
          | None => (Raise e, st')
          end
        else (Raise e, st')
    | other => other
    end.

(** [with cm: body].  [__exit__] runs once the body has completed or raised;
    it returns [None], so a raised exception is raised again after it.  A body
    that is still blocked has not left the scope. *)
Definition with_ {A} (enter : M unit) (exit_ : M unit) (body : M A) : M A :=
  fun st =>
    match enter st with
    | (Ret _, st1) =>
        match body st1 with
        | (Ret a, st2) =>
            match exit_ st2 with
            | (Ret _, st3) => (Ret a, st3)
            | (Raise e, st3) => (Raise e, st3)
            | (Blocked, st3) => (Blocked, st3)
            end
        | (Raise e, st2) =>
            match exit_ st2 with
            | (Ret _, st3) => (Raise e, st3)
            | (Raise e', st3) => (Raise e', st3)
            | (Blocked, st3) => (Blocked, st3)
            end
        | (Blocked, st2) => (Blocked, st2)
        end
    | (Raise e, st1) => (Raise e, st1)
    | (Blocked, st1) => (Blocked, st1)
    end.

(** ** Constants of the script *)

Definition nl : string := String (ascii_of_nat 10) "".
Definition dq : string := String (ascii_of_nat 34) "".
Definition esc : string := String (ascii_of_nat 27) "".

Definition RED : string := esc +:+ "[31m".
Definition GREEN : string := esc +:+ "[32m".
Definition BLUE : string := esc +:+ "[34m".
Definition RESET : string := esc +:+ "[0m".

(** The sign that ends the farewell of line 142, byte for byte as the file
    has it: the ten bytes C3 B0 C5 B8 E2 80 98 E2 80 B9 (the four characters
    U+00F0 U+0178 U+2018 U+2039 in UTF-8). *)
Definition waving_hand : string :=
  String (ascii_of_nat 195) (String (ascii_of_nat 176)
    (String (ascii_of_nat 197) (String (ascii_of_nat 184)
      (String (ascii_of_nat 226) (String (ascii_of_nat 128)
        (String (ascii_of_nat 152) (String (ascii_of_nat 226)
          (String (ascii_of_nat 128) (String (ascii_of_nat 185) ""))))))))).

Definition WEATHER_SYSTEM_PROMPT : string :=
  "You are a weather assistant with HTTP capabilities. You can:" +:+ nl +:+
  nl +:+
  "1. Make HTTP requests to the National Weather Service API" +:+ nl +:+
  "2. Process and display weather forecast data" +:+ nl +:+
  "3. Provide weather information for locations in the United States" +:+ nl +:+
  nl +:+
  "When retrieving weather information:" +:+ nl +:+
  "1. Based on the city and state, get the latitude and longitude coordinates." +:+ nl +:+
  "2. Use those coordinates with the following URL template: https://api.weather.gov/points/{latitude},{longitude}" +:+ nl +:+
  "3. Then use the returned forecast URL to get the actual forecast" +:+ nl +:+
  nl +:+
  "When displaying weather responses:" +:+ nl +:+
  "- Provide a single, concise sentence summarizing the actual current weather in that location." +:+ nl +:+
  "- Do not include numerical details like temperature, wind speed, or humidity." +:+ nl +:+
  "- Do not include the city or state name in the response; focus on the weather conditions only." +:+ nl +:+
  "- Do not start with " +:+ dq +:+ "The weather is" +:+ dq +:+ " or similar phrases." +:+ nl +:+
  "- Use natural language to describe the weather, e.g., " +:+ dq +:+
    "It is sunny with a chance of rain later." +:+ dq +:+ nl +:+
  "- Example responses: " +:+ dq +:+ "Cloudy with a chance of showers" +:+ dq +:+
    " or " +:+ dq +:+ "Sunny and the sky is clear" +:+ dq +:+ nl.

Definition MAIN_SYSTEM_PROMPT : string :=
  "You are a helpful assistant that can use various tools to answer questions. " +:+
  "You can use tools like weather_forecast, search_shutterstock, echo, greet, calculate_area, and get_api_key. " +:+
  "Use the tools to get the weather forecast, find images from Shutterstock, calculate areas, retrieve API keys, and more.".

Definition conversation_manager : SlidingWindowConversationManager :=
  {| window_size := 20 |}.

(** Lines 49-55: the three entries of the dict, 0.5 being 5 * 10 ^ -1. *)
Definition bedrock_model : BedrockModel :=
  {| model_config :=
       {[ "model_id" := ConfigStr "us.amazon.nova-micro-v1:0";
          "max_tokens" := ConfigInt 512;
          "temperature" := ConfigDecimal 5 (-1) ]} |}.

(** ** Startup: credentials and the parameters of the MCP server *)

(** Lines 21-26: both variables are read, then tested with [not]. *)
Definition load_credentials (environ : gmap string string)
  : result (string * string) :=
  let API_KEY := environ_get environ "API_KEY" in
  let SHUTTERSTOCK_API_TOKEN := environ_get environ "SHUTTERSTOCK_API_TOKEN" in
  if negb (truthy API_KEY) then
    Raised (ValueError "API_KEY environment variable is not set.")
  else if negb (truthy SHUTTERSTOCK_API_TOKEN) then
    Raised (ValueError "SHUTTERSTOCK_API_TOKEN environment variable is not set.")
  else
    Ok (default "" API_KEY, default "" SHUTTERSTOCK_API_TOKEN).

(** Lines 31-38: the [env] dict has the two entries and no other. *)
Definition stdio_server_parameters (API_KEY SHUTTERSTOCK_API_TOKEN : string)
  : StdioServerParameters :=
  {| command := "/usr/local/bin/node";
     args := ["/Users/garystaf/Documents/Projects/mcp-server-node/mcp-server.js"];
     env := {[ "API_KEY" := API_KEY;
               "SHUTTERSTOCK_API_TOKEN" := SHUTTERSTOCK_API_TOKEN ]} |}.

(** The [env=] dict that lines 34-37 give to [StdioServerParameters], as a
    function of the environment of the script.  The process itself is
    spawned by the mcp library, whose code is not part of the script: what
    that code does with the dict is not modelled. *)
Definition env_argument (environ : gmap string string)
  : result (gmap string string) :=
  match load_credentials environ with
  | Ok (k, t) => Ok (env (stdio_server_parameters k t))
  | Raised e => Raised e
  end.

(** ** The world around the script *)

Record world : Type := {
  environ : gmap string string;
  mcp_enter : option exn;                (* [__enter__] raises, or not *)
  mcp_list_tools : result (list string); (* names listed by the server *)
  llm : backend;
  stdin : list (result string)           (* what each [input()] gives *)
}.

Record MCPClient : Type := { server_parameters : StdioServerParameters }.

(** [stdio_mcp_client.__enter__()] *)
Definition MCPClient_enter (w : world) (c : MCPClient) : M unit :=
  match mcp_enter w with
  | Some e => raise e
  | None => emit (EvSessionOpen (server_parameters c))
  end.

(** [stdio_mcp_client.__exit__(..)] *)
Definition MCPClient_exit (c : MCPClient) : M unit := emit EvSessionClose.

(** [stdio_mcp_client.list_tools_sync()] *)
Definition list_tools_sync (w : world) (c : MCPClient) : M (list tool) :=
  emit EvListTools ;;
  names ← lift_result (mcp_list_tools w);
  mret (MCPAgentTool <$> names).

(** ** Agents in the store *)

(** [Agent(..)]: the constructor may raise; otherwise a new object. *)
Definition alloc_agent (b : backend) (a : Agent) : M nat := fun st =>
  match agent_init b a with
  | Some e => (Raise e, st)
  | None =>
      let l := fresh (dom (heap st)) in
      (Ret l, store l a st)
  end.

(** [agent(input)] for an agent none of whose tools is code of the script
    (line 98: the sub-agent has [http_request] alone): the backend sees the
    object as it is now; the call leaves a new history in the object, and
    returns or raises.  A name of the script is always bound to an object
    of the store when it is called; the first branch only makes the
    function total. *)
Definition call_agent (b : backend) (l : nat) (input : string)
  : M AgentResult := fun st =>
  match heap st !! l with
  | None => (Raise (Exn (ExceptionSubclass "ReferenceError") ""), st)
  | Some a =>
      let r := agent_invoke b a input in
      let st' := log (store l (set_messages a (snd r)) st)
                   [EvAgentCall l a input] in
      match fst r with
      | Ok x => (Ret x, st')
      | Raised e => (Raise e, st')
      end
  end.

(** ** weather_assistant (lines 79-101) *)

Definition weather_assistant (b : backend) (query : string) : M string :=
  try_except
    (weather_agent ← alloc_agent b
       (Agent_new WEATHER_SYSTEM_PROMPT [http_request] None None);
     response ← call_agent b weather_agent query;
     mret (str_result response))
    None
    (Some (fun e => mret ("Error in weather assistant: " +:+ str_exn e))).

(** The process after a series of calls of [weather_assistant], made one
    after the other. *)
Definition after_weather_calls (b : backend) (queries : list string)
    (st : process) : process :=
  foldl (λ st q, snd (weather_assistant b q st)) st queries.

(** ** A call of the orchestrator (line 146) *)

(** The runs of [weather_assistant] during a call of the agent [a]: when the
    agent has the tool, the function is run in the process for each query
    the model sends to it, and each run builds and calls its own sub-agent;
    an agent without the tool runs none. *)
Definition tool_runs (b : backend) (a : Agent) (input : string)
    (st : process) : process :=
  if bool_decide (weather_assistant_tool ∈ tools a) then
    after_weather_calls b (weather_uses b a input) st
  else st.

(** [orchestrator_agent(user_input)]: as [call_agent], with the runs of
    [weather_assistant] the call makes on the way.  What the call returns or
    raises in the end is the backend's, whatever the runs gave. *)
Definition call_orchestrator (b : backend) (l : nat) (input : string)
  : M AgentResult := fun st =>
  match heap st !! l with
  | None => (Raise (Exn (ExceptionSubclass "ReferenceError") ""), st)
  | Some a =>
      let r := agent_invoke b a input in
      let st' := store l (set_messages a (snd r))
                   (tool_runs b a input (log st [EvAgentCall l a input])) in
      match fst r with
      | Ok x => (Ret x, st')
      | Raised e => (Raise e, st')
      end
  end.

(** ** The interactive loop (lines 137-152) *)

Inductive control : Type := Continue | Break.

(** [input(prompt)]: what the call gives, or raises (also while it writes
    the prompt), is the outcome [line]. *)
Definition input (prompt : string) (line : result string) : M string :=
  emit (EvInput prompt) ;; lift_result line.

Definition is_exit_command (user_input : string) : bool :=
  (lower user_input =? "exit")%string || (lower user_input =? "quit")%string.

Definition prompt_text : string := nl +:+ BLUE +:+ "> " +:+ RESET.

Definition goodbye_text : string :=
  nl +:+ BLUE +:+ "Goodbye! " +:+ waving_hand +:+ RESET.

Definition interrupted_text : string :=
  nl +:+ nl +:+ RED +:+ "Execution interrupted. Exiting..." +:+ RESET.

Definition error_text (e : exn) : string :=
  nl +:+ RED +:+ "An error occurred: " +:+ str_exn e +:+ RESET.

Definition retry_text : string :=
  RED +:+ "Please try a different request." +:+ RESET.

(** One pass through the [try] statement of the loop. *)
Definition loop_body (b : backend) (orchestrator_agent : nat)
    (line : result string) : M control :=
  try_except
    (user_input ← input prompt_text line;
     if is_exit_command user_input then
       print b goodbye_text ;; mret Break
     else
       response ← call_orchestrator b orchestrator_agent user_input;
       mret Continue)
    (Some (print b interrupted_text ;; mret Break))
    (Some (fun e =>
             print b (error_text e) ;; print b retry_text ;; mret Continue)).

Fixpoint interactive_loop (b : backend) (orchestrator_agent : nat)
    (lines : list (result string)) : M unit :=
  match lines with
  | [] => blocked
  | line :: rest =>
      ctl ← loop_body b orchestrator_agent line;
      match ctl with
      | Break => mret tt
      | Continue => interactive_loop b orchestrator_agent rest
      end
  end.

(** ** The script *)

Definition orchestrator_tools (discovered : list tool) : list tool :=
  discovered ++ [weather_assistant_tool; http_request; shell].

Definition banner_text : string :=
  nl +:+ BLUE +:+ "Strands Agents Demonstration" +:+ RESET.

Definition hint_text : string :=
  nl +:+ BLUE +:+ "Type your request (or 'exit' to quit):" +:+ RESET.

(** The orchestrator as line 116 builds it from the listed tools. *)
Definition orchestrator_config (discovered : list tool) : Agent :=
  Agent_new MAIN_SYSTEM_PROMPT (orchestrator_tools discovered)
    (Some bedrock_model) (Some conversation_manager).

(** Lines 105-134 of the [with] body: everything before the loop. *)
Definition session_setup (w : world) (stdio_mcp_client : MCPClient) : M nat :=
  tools ← list_tools_sync w stdio_mcp_client;
  orchestrator_agent ← alloc_agent (llm w) (orchestrator_config tools);
  print (llm w) banner_text ;;
  print (llm w) hint_text ;;
  mret orchestrator_agent.

(** The body of the [with] statement (lines 105-152). *)
Definition session_body (w : world) (stdio_mcp_client : MCPClient) : M unit :=
  orchestrator_agent ← session_setup w stdio_mcp_client;
  interactive_loop (llm w) orchestrator_agent (stdin w).

Definition script (w : world) : M unit :=
  creds ← lift_result (load_credentials (environ w));
  let stdio_mcp_client :=
    {| server_parameters := stdio_server_parameters (fst creds) (snd creds) |} in
  with_ (MCPClient_enter w stdio_mcp_client) (MCPClient_exit stdio_mcp_client)
    (session_body w stdio_mcp_client).

(** Running the script from a fresh process. *)
Definition run (w : world) : status unit * process := script w init_process.

(** Exit status of the interpreter: 0 when the script runs off its end, 1
    after the traceback of an [Exception] no handler took.  The status after
    the other exceptions depends on what they carry and is left out, as is
    the status of a script that has not ended. *)
Definition exit_code (s : status unit) : option Z :=
  match s with
  | Ret _ => Some 0%Z
  | Raise e => if isinstance_Exception e then Some 1%Z else None
  | Blocked => None
  end.

(** Case-insensitive equality of two lines, letter by letter: two bytes
    are the same letter when they are equal or when one is an upper-case
    ASCII letter and the other is its lower-case form. *)

Definition is_upper (c : ascii) : bool :=
  (65 <=? nat_of_ascii c)%nat && (nat_of_ascii c <=? 90)%nat.

Definition same_letter (c d : ascii) : bool :=
  Ascii.eqb c d
  || (is_upper c && (nat_of_ascii d =? nat_of_ascii c + 32)%nat)
  || (is_upper d && (nat_of_ascii c =? nat_of_ascii d + 32)%nat).

Fixpoint ci_equal (s t : string) : bool :=
  match s, t with
  | EmptyString, EmptyString => true
  | String c s', String d t' => same_letter c d && ci_equal s' t'
  | _, _ => false
  end.

(** ** Reading a trace *)

Definition is_open (ev : event) : bool :=
  match ev with EvSessionOpen _ => true | _ => false end.

Definition is_close (ev : event) : bool :=
  match ev with EvSessionClose => true | _ => false end.

Definition is_input (ev : event) : bool :=
  match ev with EvInput _ => true | _ => false end.

Definition sessions_opened (tr : list event) : nat :=
  length (filter (λ ev, is_open ev = true) tr).

Definition sessions_closed (tr : list event) : nat :=
  length (filter (λ ev, is_close ev = true) tr).

Definition prompts (tr : list event) : nat :=
  length (filter (λ ev, is_input ev = true) tr).

(** The configuration of the sub-agent line 95 builds. *)
Definition weather_agent_config : Agent :=
  Agent_new WEATHER_SYSTEM_PROMPT [http_request] None None.

(** A call of an agent is a call of the orchestrator, the object at [l] with
    the tools [ts], or a call of a sub-agent as line 95 builds it, at
    another place of the store. *)
Definition orchestrator_or_sub_agent (l : nat) (ts : list tool)
    (l' : nat) (a : Agent) : Prop :=
  (l' = l ∧ tools a = ts) ∨ (l' ≠ l ∧ a = weather_agent_config).

(** The events a turn of the loop may add when the orchestrator is the
    object at [l] and was built with the tools [ts]: prompts, printed lines,
    calls of that object with those tools, and calls of sub-agents. *)
Definition turn_event (l : nat) (ts : list tool) (ev : event) : Prop :=
  match ev with
  | EvInput _ | EvPrint _ => True
  | EvAgentCall l' a _ => orchestrator_or_sub_agent l ts l' a
  | EvSessionOpen _ | EvSessionClose | EvListTools => False
  end.

(** The events the body of the [with] statement may add: as a turn does,
    and the listing of the tools. *)
Definition body_event (l : nat) (ts : list tool) (ev : event) : Prop :=
  match ev with
  | EvListTools | EvInput _ | EvPrint _ => True
  | EvAgentCall l' a _ => orchestrator_or_sub_agent l ts l' a
  | EvSessionOpen _ | EvSessionClose => False
  end.

(** What the two handlers of the loop do with an exception raised in the
    [try] block, from the process state [st] it was raised in.  Their
    prints are outside the [try]: an exception of a print leaves the
    loop. *)
Definition handled (b : backend) (e : exn) (st : process)
  : status control * process :=
  if isinstance_KeyboardInterrupt e then
    match stdout_write b interrupted_text with
    | Some e' => (Raise e', st)
    | None => (Ret Break, log st [EvPrint interrupted_text])
    end
  else if isinstance_Exception e then
    match stdout_write b (error_text e) with
    | Some e' => (Raise e', st)
    | None =>
        match stdout_write b retry_text with
        | Some e' => (Raise e', log st [EvPrint (error_text e)])
        | None =>
            (Ret Continue, log st [EvPrint (error_text e); EvPrint retry_text])
        end
    end
  else (Raise e, st).

(** The process after the orchestrator, the object [a] at [l], was called
    for the line [line] read in the state [st]: the prompt and the call are
    in the trace, the runs of [weather_assistant] are made, and the object
    has the history the call left. *)
Definition turn_state (b : backend) (l : nat) (a : Agent) (line : string)
    (st : process) : process :=
  store l (set_messages a (snd (agent_invoke b a line)))
    (tool_runs b a line (log st [EvInput prompt_text; EvAgentCall l a line])).

(** A call of a sub-agent as line 95 builds it, at a place that is free in
    the store of [st]. *)
Definition new_sub_agent_call (st : process) (ev : event) : Prop :=
  ∃ l q, ev = EvAgentCall l weather_agent_config q ∧ l ∉ dom (heap st).

(** The place of the store where the script puts its orchestrator: the
    first free one of the empty store. *)
Definition orchestrator_loc : nat := fresh (dom (∅ : gmap nat Agent)).

(** What the single [except Exception] clause of [weather_assistant] does
    with an exception raised in its [try] block. *)
Definition weather_handled (e : exn) (st : process) : status string * process :=
  if isinstance_Exception e then
    (Ret ("Error in weather assistant: " +:+ str_exn e), st)
  else (Raise e, st).

(** The outcome of the [try] block of [weather_assistant]: the sub-agent is
    built, then called once with the query. *)
Definition weather_try_block (b : backend) (query : string)
  : result AgentResult :=
  match agent_init b weather_agent_config with
  | Some e => Raised e
  | None => fst (agent_invoke b weather_agent_config query)
  end.

(** ** The bounded conversation window *)

Module ConversationWindow.
Section Window.
Context {A : Type}.

(** Modelled from the spec: the class [SlidingWindowConversationManager]
    is imported from the strands library and its code is not among the
    sources of the repository, which only fix its capacity
    ([window_size=20], lines 44-46).  Section 4.3 of the specification
    gives the contract followed here: "append(message) adds to the
    ordered log; if resulting length exceeds capacity N, evict from the
    front until length == N". *)
Fixpoint evict (capacity : nat) (w : list A) : list A :=
  match w with
  | [] => []
  | _ :: w' => if (capacity <? length w)%nat then evict capacity w' else w
  end.

(** Modelled from the spec: [append] of the window, absent from the
    sources as above; the message is added at the end, then the front is
    evicted down to the capacity. *)
Definition append (capacity : nat) (w : list A) (m : A) : list A :=
  evict capacity (w ++ [m]).

(** Modelled from the spec: [snapshot] of the window, absent from the
    sources as above; "snapshot() returns the current window". *)
Definition snapshot (w : list A) : list A := w.

(** Modelled from the spec: the window after the appends of [ms], one
    message at a time, in the order of [ms]. *)
Definition appends (capacity : nat) (w : list A) (ms : list A) : list A :=
  foldl (append capacity) w ms.
End Window.
End ConversationWindow.

(** ** Concrete worlds used below *)

Definition KeyboardInterrupt_exn : exn := Exn KeyboardInterrupt "".

Definition EOFError : exn :=
  Exn (ExceptionSubclass "EOFError") "EOF when reading a line".

Definition ConnectionError (msg : string) : exn :=
  Exn (ExceptionSubclass "ConnectionError") msg.

(** A backend that answers every call with the input it was given and
    records the exchange in the history. *)
Definition echo_backend : backend :=
  {| agent_init := fun _ => None;
     agent_invoke := fun a q =>
       (Ok {| result_text := q |},
        (messages a ++ [ {| msg_role := user; msg_content := q |};
                         {| msg_role := assistant; msg_content := q |} ])%list);
     weather_uses := fun _ _ => [];
     stdout_write := fun _ => None |}.

(** A backend whose every call fails with a network error. *)
Definition failing_backend : backend :=
  {| agent_init := fun _ => None;
     agent_invoke := fun a q =>
       (Raised (ConnectionError "connection refused"),
        (messages a ++ [ {| msg_role := user; msg_content := q |} ])%list);
     weather_uses := fun _ _ => [];
     stdout_write := fun _ => None |}.

(** A backend during whose calls the user presses Ctrl-C. *)
Definition interrupted_backend : backend :=
  {| agent_init := fun _ => None;
     agent_invoke := fun a q =>
       (Raised KeyboardInterrupt_exn,
        (messages a ++ [ {| msg_role := user; msg_content := q |} ])%list);
     weather_uses := fun _ _ => [];
     stdout_write := fun _ => None |}.

(** A backend whose model sends every line it is given to the tool
    [weather_assistant], once, and otherwise answers as [echo_backend]. *)
Definition weather_backend : backend :=
  {| agent_init := fun _ => None;
     agent_invoke := agent_invoke echo_backend;
     weather_uses := fun _ q => [q];
     stdout_write := fun _ => None |}.

Definition UnicodeEncodeError : exn :=
  Exn (ExceptionSubclass "UnicodeEncodeError")
    "'ascii' codec can't encode characters: ordinal not in range(128)".

Fixpoint is_ascii_text (s : string) : bool :=
  match s with
  | EmptyString => true
  | String c s' => (nat_of_ascii c <? 128)%nat && is_ascii_text s'
  end.

(** A standard output with the ASCII encoding: a text with a byte above 127
    cannot be written. *)
Definition ascii_stdout (s : string) : option exn :=
  if is_ascii_text s then None else Some UnicodeEncodeError.

(** [echo_backend] on a standard output with the ASCII encoding. *)
Definition ascii_backend : backend :=
  {| agent_init := fun _ => None;
     agent_invoke := agent_invoke echo_backend;
     weather_uses := fun _ _ => [];
     stdout_write := ascii_stdout |}.

(** A message with an accented letter (the two bytes of U+00E9). *)
Definition accented_message : string :=
  "connexion refus" +:+
  String (ascii_of_nat 195) (String (ascii_of_nat 169) "e").

(** A backend whose every call fails with that message, on a standard output
    with the ASCII encoding. *)
Definition accented_backend : backend :=
  {| agent_init := fun _ => None;
     agent_invoke := fun a q =>
       (Raised (ConnectionError accented_message),
        (messages a ++ [ {| msg_role := user; msg_content := q |} ])%list);
     weather_uses := fun _ _ => [];
     stdout_write := ascii_stdout |}.

Definition good_environ : gmap string string :=
  {[ "API_KEY" := "k-123"; "SHUTTERSTOCK_API_TOKEN" := "t-456";
     "PATH" := "/usr/bin"; "HOME" := "/home/demo" ]}.

Definition other_environ : gmap string string :=
  {[ "API_KEY" := "k-123"; "SHUTTERSTOCK_API_TOKEN" := "t-456";
     "AWS_SECRET_ACCESS_KEY" := "s3cr3t" ]}.

Definition empty_key_environ : gmap string string :=
  {[ "API_KEY" := ""; "SHUTTERSTOCK_API_TOKEN" := "t-456" ]}.

(** The tools the orchestrator is built with in a world: the listed ones
    and the three local ones (none is built when the listing fails). *)
Definition world_tools (w : world) : list tool :=
  match mcp_list_tools w with
  | Ok names => orchestrator_tools (MCPAgentTool <$> names)
  | Raised _ => []
  end.

Definition demo_world (b : backend) (lines : list (result string)) : world :=
  {| environ := good_environ;
     mcp_enter := None;
     mcp_list_tools := Ok ["search_shutterstock"; "echo"];
     llm := b;
     stdin := lines |}.

(** A variable of the environment counts as unset for the script when it is
    absent or empty, and as set otherwise. *)
Definition unset (environ : gmap string string) (name : string) : Prop :=
  environ !! name = None ∨ environ !! name = Some "".

Definition set_to (environ : gmap string string) (name value : string) : Prop :=
  environ !! name = Some value ∧ value ≠ "".

(** A world whose environment has both variables, the first one empty. *)
Definition empty_key_world : world :=
  {| environ := empty_key_environ;
     mcp_enter := None;
     mcp_list_tools := Ok ["search_shutterstock"; "echo"];
     llm := echo_backend;
     stdin := [Ok "exit"] |}.

(** A world where listing the tools of the server fails. *)
Definition broken_server_world : world :=
  {| environ := good_environ;
     mcp_enter := None;
     mcp_list_tools := Raised (ConnectionError "server exited");
     llm := echo_backend;
     stdin := [] |}.

(** ** Further readings of a trace *)

(** The events of a turn whose [try] block raised the [Exception] [e] in
    [input()]: the prompt and the two printed lines of the handler. *)
Definition failed_input_events (e : exn) : list event :=
  [EvInput prompt_text; EvPrint (error_text e); EvPrint retry_text].

Definition is_list_tools (ev : event) : bool :=
  match ev with EvListTools => true | _ => false end.

Definition tool_listings (tr : list event) : nat :=
  length (filter (λ ev, is_list_tools ev = true) tr).

(** The lines the script itself prints: the five fixed texts, and the
    report of an [Exception]. *)
Definition script_text (s : string) : Prop :=
  s ∈ [banner_text; hint_text; goodbye_text; interrupted_text; retry_text]
  ∨ ∃ e, isinstance_Exception e = true ∧ s = error_text e.

Definition prints_script_text (ev : event) : Prop :=
  match ev with
  | EvPrint s => script_text s
  | _ => True
  end.

Definition SystemExit_exn : exn := Exn SystemExit "".

(** The state of the demo worlds when the loop starts: the session is open,
    the two tools are listed, the orchestrator is the object 0. *)
Definition demo_loop_start : process :=
  log (store 0 (orchestrator_config
                  (MCPAgentTool <$> ["search_shutterstock"; "echo"]))
         (log init_process
            [EvSessionOpen (stdio_server_parameters "k-123" "t-456")]))
    [EvListTools; EvPrint banner_text; EvPrint hint_text].

Close Scope string_scope.

(** * Properties *)

(** ** The bounded conversation window *)

Section WindowFacts.
Context {A : Type}.
Implicit Types (w ms : list A) (m : A) (capacity : nat).

Import ConversationWindow.

Lemma evict_drop capacity w :
  evict capacity w = drop (length w - capacity) w.
Proof.
  induction w as [|a w IH]; [done|].
  cbn [evict]. destruct (Nat.ltb_spec capacity (length (a :: w))) as [Hlt|Hge].
  - rw IH. cbn [length] in *.
    replace (S (length w) - capacity) with (S (length w - capacity)) by lia.
    done.
  - replace (length (a :: w) - capacity) with 0 by lia. done.
Qed.

Lemma evict_length capacity w :
  length (evict capacity w) = length w `min` capacity.
Proof. rw evict_drop length_drop. lia. Qed.

Lemma append_length capacity w m :
  length (append capacity w m) = S (length w) `min` capacity.
Proof. unfold append. rw evict_length length_app. cbn [length]. lia. Qed.

(** Appending to a window that has room keeps every message. *)
Lemma append_room capacity w m :
  length w < capacity → append capacity w m = w ++ [m].
Proof.
  intros Hlt. unfold append. rw evict_drop length_app /=.
  replace (length w + 1 - capacity) with 0 by lia. done.
Qed.

(** Appending to a full window drops its oldest message and no other. *)
Lemma append_full capacity w m :
  0 < capacity → length w = capacity →
  append capacity w m = drop 1 w ++ [m].
Proof.
  intros Hpos Hlen. unfold append. rw evict_drop length_app /=.
  replace (length w + 1 - capacity) with 1 by lia.
  destruct w as [|a w]; [simpl in Hlen; lia|]. done.
Qed.

Lemma appends_cons capacity w m ms :
  appends capacity w (m :: ms) = appends capacity (append capacity w m) ms.
Proof. reflexivity. Qed.

Lemma appends_drop capacity ms : ∀ w,
  length w ≤ capacity →
  appends capacity w ms = drop (length (w ++ ms) - capacity) (w ++ ms).
Proof.
  induction ms as [|m ms IH]; intros w Hw.
  - rw app_nil_r. replace (length w - capacity) with 0 by lia. done.
  - rw appends_cons IH; first (rw append_length; lia).
    pose proof (append_length capacity w m) as Hlen.
    unfold append in *. rw evict_drop in Hlen |- *.
    rw length_app. rw Hlen.
    replace (w ++ m :: ms) with ((w ++ [m]) ++ ms) by by rw -app_assoc.
    set (X := w ++ [m]) in *.
    assert (HX : length X = S (length w)) by (unfold X; rw length_app /=; lia).
    rw -(drop_app_le X ms (length X - capacity)); first lia.
    rw drop_drop length_app. clearbody X. f_equal. lia.
Qed.

Lemma appends_empty capacity ms :
  appends capacity [] ms = drop (length ms - capacity) ms.
Proof. rw appends_drop; simpl; (done || lia). Qed.

Lemma appends_length capacity ms :
  length (appends capacity [] ms) = length ms `min` capacity.
Proof. rw appends_empty length_drop. lia. Qed.

(** C1. Starting from the empty window of capacity [capacity] and appending
    the messages [ms] one at a time: the snapshot has length
    [min (length ms) capacity]; after every prefix of the appends the
    length is at most [capacity]; the snapshot is the last
    [min (length ms) capacity] messages of [ms] in their order; an append to
    a window with room evicts nothing and an append to a full window evicts
    its first (oldest) message only; and with the configured capacity 20,
    appending 21 messages leaves messages 2 to 21. *)
Theorem window_keeps_most_recent capacity ms :
  length (snapshot (appends capacity [] ms)) = length ms `min` capacity
  ∧ (∀ k, length (appends capacity [] (take k ms)) ≤ capacity)
  ∧ snapshot (appends capacity [] ms) = drop (length ms - capacity) ms
  ∧ (∀ w m, length w < capacity → append capacity w m = w ++ [m])
  ∧ (∀ w m, 0 < capacity → length w = capacity →
       append capacity w m = drop 1 w ++ [m])
  ∧ window_size conversation_manager = 20
  ∧ (∀ m1 rest, length rest = 20 →
       snapshot (appends (window_size conversation_manager) [] (m1 :: rest))
       = rest).
Proof.
  unfold snapshot. split_and!.
  - apply appends_length.
  - intros k. rw appends_length. lia.
  - apply appends_empty.
  - apply append_room.
  - apply append_full.
  - done.
  - intros m1 rest Hlen. rw appends_empty. cbn [length window_size conversation_manager].
    rw Hlen. done.
Qed.
End WindowFacts.

(** The 21-message scenario at the configured capacity: message 1 is
    evicted and messages 2 to 21 stay. *)
Lemma window_keeps_most_recent_witness :
  length (seq 2 20) = 20
  ∧ ConversationWindow.snapshot
      (ConversationWindow.appends (window_size conversation_manager) []
         (1 :: seq 2 20))
    = seq 2 20.
Proof.
  split; [reflexivity|].
  destruct (window_keeps_most_recent 20 (1 :: seq 2 20))
    as (_ & _ & _ & _ & _ & _ & Hscenario).
  by apply Hscenario.
Defined.

(** ** The process state *)

Lemma log_nil st : log st [] = st.
Proof. destruct st. unfold log. simpl. by rw app_nil_r. Qed.

Lemma log_log st evs1 evs2 : log (log st evs1) evs2 = log st (evs1 ++ evs2).
Proof. unfold log. simpl. by rw app_assoc. Qed.

Lemma log_store l a st evs : log (store l a st) evs = store l a (log st evs).
Proof. reflexivity. Qed.

(** ** weather_assistant *)

Lemma KeyboardInterrupt_not_Exception e :
  isinstance_KeyboardInterrupt e = true → isinstance_Exception e = false.
Proof.
  unfold isinstance_KeyboardInterrupt, isinstance_Exception.
  by destruct (exn_cls e).
Qed.

Lemma Exception_not_KeyboardInterrupt e :
  isinstance_Exception e = true → isinstance_KeyboardInterrupt e = false.
Proof.
  unfold isinstance_KeyboardInterrupt, isinstance_Exception.
  by destruct (exn_cls e).
Qed.

Lemma weather_assistant_eq b query st :
  weather_assistant b query st =
  match agent_init b weather_agent_config with
  | Some e => weather_handled e st
  | None =>
      let l := fresh (dom (heap st)) in
      let r := agent_invoke b weather_agent_config query in
      let st' := log (store l (set_messages weather_agent_config (snd r))
                        (store l weather_agent_config st))
                   [EvAgentCall l weather_agent_config query] in
      match fst r with
      | Ok response => (Ret (str_result response), st')
      | Raised e => weather_handled e st'
      end
  end.
Proof.
  unfold weather_assistant, try_except, weather_handled, alloc_agent,
    call_agent, mbind, M_bind, mret, M_ret.
  fold weather_agent_config.
  destruct (agent_init b weather_agent_config) as [e|]; cbn.
  - destruct (isinstance_KeyboardInterrupt e) eqn:Hk; [|done].
    by rw (KeyboardInterrupt_not_Exception e Hk).
  - rw lookup_insert_eq.
    destruct (agent_invoke b weather_agent_config query) as [[x|e] ms]; cbn;
      [done|].
    destruct (isinstance_KeyboardInterrupt e) eqn:Hk; [|done].
    by rw (KeyboardInterrupt_not_Exception e Hk).
Qed.

Lemma weather_assistant_fst b query st :
  fst (weather_assistant b query st) =
  match weather_try_block b query with
  | Ok response => Ret (str_result response)
  | Raised e =>
      if isinstance_Exception e then
        Ret ("Error in weather assistant: " +:+ str_exn e)%string
      else Raise e
  end.
Proof.
  rw weather_assistant_eq. unfold weather_try_block, weather_handled.
  destruct (agent_init b weather_agent_config) as [e|]; cbn zeta.
  - by destruct (isinstance_Exception e).
  - destruct (fst (agent_invoke b weather_agent_config query)) as [x|e]; [done|].
    by destruct (isinstance_Exception e).
Qed.

(** C2, as the code has it.  When the [try] block completes, the wrapper
    returns the text of the response; when it raises an exception of class
    [Exception], the wrapper returns the string "Error in weather assistant: "
    followed by the message of the exception; an exception that is not of
    class [Exception] ([KeyboardInterrupt], [SystemExit], [GeneratorExit])
    is raised past the wrapper. *)
Theorem weather_assistant_catches_Exception b query st :
  (∀ response, weather_try_block b query = Ok response →
     fst (weather_assistant b query st) = Ret (str_result response))
  ∧ (∀ e, weather_try_block b query = Raised e →
       isinstance_Exception e = true →
       fst (weather_assistant b query st)
       = Ret ("Error in weather assistant: " +:+ str_exn e)%string)
  ∧ (∀ e, weather_try_block b query = Raised e →
       isinstance_Exception e = false →
       fst (weather_assistant b query st) = Raise e).
Proof.
  rw weather_assistant_fst. split_and!.
  - by intros response ->.
  - by intros e -> ->.
  - by intros e -> ->.
Qed.

(** A network failure inside the sub-agent comes back as a string. *)
Lemma weather_assistant_catches_Exception_witness :
  weather_try_block failing_backend "Boston, MA"
  = Raised (ConnectionError "connection refused")
  ∧ fst (weather_assistant failing_backend "Boston, MA" init_process)
    = Ret "Error in weather assistant: connection refused"%string.
Proof.
  split; [reflexivity|].
  exact (proj1 (proj2 (weather_assistant_catches_Exception failing_backend
                         "Boston, MA" init_process))
           (ConnectionError "connection refused") eq_refl eq_refl).
Defined.

(** C2 as stated fails: a Ctrl-C during the run of the sub-agent is raised
    past [weather_assistant], which returns no string then. *)
Lemma weather_assistant_interrupt_escapes :
  fst (weather_assistant interrupted_backend "Boston, MA" init_process)
  = Raise KeyboardInterrupt_exn
  ∧ ¬ ∃ s, fst (weather_assistant interrupted_backend "Boston, MA" init_process)
           = Ret s.
Proof.
  assert (H : fst (weather_assistant interrupted_backend "Boston, MA"
                     init_process) = Raise KeyboardInterrupt_exn)
    by by vm_compute.
  split; [done|]. rw H. by intros [s ?].
Qed.

Lemma weather_assistant_heap b query st l :
  l ∈ dom (heap st) →
  heap (snd (weather_assistant b query st)) !! l = heap st !! l.
Proof.
  intros Hl. rw weather_assistant_eq. unfold weather_handled.
  assert (Hne : fresh (dom (heap st)) ≠ l).
  { intros <-. by apply (is_fresh (dom (heap st))). }
  destruct (agent_init b weather_agent_config) as [e|]; cbn zeta.
  - by destruct (isinstance_Exception e).
  - destruct (fst (agent_invoke b weather_agent_config query)) as [x|e].
    + cbn. by rw !lookup_insert_ne.
    + destruct (isinstance_Exception e); cbn; by rw !lookup_insert_ne.
Qed.

Lemma weather_assistant_trace b query st :
  ∃ evs, trace (snd (weather_assistant b query st)) = trace st ++ evs
         ∧ length evs ≤ 1
         ∧ Forall (λ ev, ∃ l, ev = EvAgentCall l weather_agent_config query
                              ∧ l ∉ dom (heap st)) evs.
Proof.
  rw weather_assistant_eq. unfold weather_handled.
  assert (Hnil : ∃ evs : list event, trace st = trace st ++ evs
            ∧ length evs ≤ 1
            ∧ Forall (λ ev, ∃ l, ev = EvAgentCall l weather_agent_config query
                                 ∧ l ∉ dom (heap st)) evs).
  { exists []. rw app_nil_r. split_and!; [done|cbn; lia|constructor]. }
  assert (Hone : ∃ evs : list event,
            trace st ++ [EvAgentCall (fresh (dom (heap st)))
                           weather_agent_config query] = trace st ++ evs
            ∧ length evs ≤ 1
            ∧ Forall (λ ev, ∃ l, ev = EvAgentCall l weather_agent_config query
                                 ∧ l ∉ dom (heap st)) evs).
  { eexists. split_and!; [reflexivity|cbn; lia|].
    repeat constructor. eexists. split; [done|]. apply is_fresh. }
  destruct (agent_init b weather_agent_config) as [e|]; cbn zeta.
  - by destruct (isinstance_Exception e).
  - destruct (fst (agent_invoke b weather_agent_config query)) as [x|e];
      [done|]. by destruct (isinstance_Exception e).
Qed.

(** ** Series of calls of weather_assistant *)

Lemma weather_assistant_snd b query st :
  agent_init b weather_agent_config = None →
  snd (weather_assistant b query st)
  = log (store (fresh (dom (heap st)))
           (set_messages weather_agent_config
              (snd (agent_invoke b weather_agent_config query))) st)
      [EvAgentCall (fresh (dom (heap st))) weather_agent_config query].
Proof.
  intros Hinit. rw weather_assistant_eq Hinit. cbn zeta.
  assert (Hst : ∀ l a1 a2 evs,
            log (store l a2 (store l a1 st)) evs = log (store l a2 st) evs).
  { intros l a1 a2 evs. unfold log, store. cbn. by rw insert_insert_eq. }
  unfold weather_handled.
  destruct (fst (agent_invoke b weather_agent_config query)) as [x|e];
    [|destruct (isinstance_Exception e)]; cbn [snd]; apply Hst.
Qed.

Lemma weather_assistant_unbuilt b query st e :
  agent_init b weather_agent_config = Some e →
  snd (weather_assistant b query st) = st.
Proof.
  intros Hinit. rw weather_assistant_eq Hinit. unfold weather_handled.
  by destruct (isinstance_Exception e).
Qed.

Lemma after_weather_calls_cons b q qs st :
  after_weather_calls b (q :: qs) st
  = after_weather_calls b qs (snd (weather_assistant b q st)).
Proof. reflexivity. Qed.

Lemma weather_assistant_dom b query st l :
  l ∈ dom (heap st) → l ∈ dom (heap (snd (weather_assistant b query st))).
Proof.
  intros Hl. apply elem_of_dom. rw weather_assistant_heap; [done|].
  by apply elem_of_dom.
Qed.

(** A series of calls leaves the objects that were in the store as they
    are, and adds only calls of new sub-agents to the trace. *)
Lemma after_weather_calls_inv b qs : ∀ st,
  (∀ l, l ∈ dom (heap st) →
        heap (after_weather_calls b qs st) !! l = heap st !! l)
  ∧ ∃ evs, trace (after_weather_calls b qs st) = trace st ++ evs
           ∧ Forall (new_sub_agent_call st) evs.
Proof.
  induction qs as [|q qs IH]; intros st.
  - split; [done|]. exists []. split; [by rw app_nil_r|constructor].
  - rw after_weather_calls_cons. set (st1 := snd (weather_assistant b q st)).
    destruct (IH st1) as [Hheap (evs2 & Htr2 & Hevs2)]. split.
    + intros l Hl. rw Hheap; [by apply weather_assistant_dom|].
      by apply weather_assistant_heap.
    + destruct (weather_assistant_trace b q st) as (evs1 & Htr1 & _ & Hevs1).
      exists (evs1 ++ evs2). split.
      * rw Htr2. fold st1 in Htr1. by rw Htr1 app_assoc.
      * apply Forall_app. split.
        -- eapply Forall_impl; [exact Hevs1|].
           intros ev (l & -> & Hl). by exists l, q.
        -- eapply Forall_impl; [exact Hevs2|].
           intros ev (l & q' & -> & Hl). exists l, q'. split; [done|].
           intros Hin. apply Hl. by apply weather_assistant_dom.
Qed.

(** When the sub-agent can be built, a series of calls adds one call per
    query, in the order of the queries, each on a sub-agent as line 95
    builds it. *)
Lemma after_weather_calls_calls b qs : ∀ st,
  agent_init b weather_agent_config = None →
  ∃ evs, trace (after_weather_calls b qs st) = trace st ++ evs
         ∧ Forall2 (λ ev q, ∃ l, ev = EvAgentCall l weather_agent_config q)
             evs qs.
Proof.
  intros st Hinit. revert st. induction qs as [|q qs IH]; intros st.
  - exists []. split; [by rw app_nil_r|constructor].
  - rw after_weather_calls_cons.
    destruct (IH (snd (weather_assistant b q st))) as (evs & Htr & Hevs).
    eexists (_ :: evs). split.
    + rw Htr (weather_assistant_snd b q st Hinit). cbn. by rw -app_assoc.
    + constructor; [by eexists|done].
Qed.

Lemma tool_runs_inv b a input st :
  (∀ l, l ∈ dom (heap st) → heap (tool_runs b a input st) !! l = heap st !! l)
  ∧ ∃ evs, trace (tool_runs b a input st) = trace st ++ evs
           ∧ Forall (new_sub_agent_call st) evs.
Proof.
  unfold tool_runs. destruct (bool_decide _).
  - apply after_weather_calls_inv.
  - split; [done|]. exists []. split; [by rw app_nil_r|constructor].
Qed.

(** ** One turn of the loop *)

Lemma turn_state_eq b l a line st :
  turn_state b l a line st
  = store l (set_messages a (snd (agent_invoke b a line)))
      (tool_runs b a line
         (log (log st [EvInput prompt_text]) [EvAgentCall l a line])).
Proof. unfold turn_state. by rw log_log. Qed.

(** The two handlers of the loop, applied to what its [try] block gave. *)
Lemma try_except_handled b (body : M control) st :
  try_except body
    (Some (print b interrupted_text ;; mret Break))
    (Some (fun e =>
             print b (error_text e) ;; print b retry_text ;; mret Continue)) st
  = match body st with
    | (Raise e, st') => handled b e st'
    | other => other
    end.
Proof.
  unfold try_except. destruct (body st) as [[x|e|] st']; try done.
  unfold handled, print, mbind, M_bind, mret, M_ret.
  destruct (isinstance_KeyboardInterrupt e).
  - by destruct (stdout_write b interrupted_text).
  - destruct (isinstance_Exception e); [|done].
    destruct (stdout_write b (error_text e)); [done|].
    destruct (stdout_write b retry_text); [done|]. cbn. by rw log_log.
Qed.

(** The [try] statement of the loop, case by case. *)
Lemma loop_body_eq b l line st :
  loop_body b l line st =
  match line with
  | Raised e => handled b e (log st [EvInput prompt_text])
  | Ok user_input =>
      if is_exit_command user_input then
        match stdout_write b goodbye_text with
        | Some e => handled b e (log st [EvInput prompt_text])
        | None =>
            (Ret Break, log st [EvInput prompt_text; EvPrint goodbye_text])
        end
      else
        match heap st !! l with
        | None =>
            handled b (Exn (ExceptionSubclass "ReferenceError") "")
              (log st [EvInput prompt_text])
        | Some a =>
            match fst (agent_invoke b a user_input) with
            | Ok _ => (Ret Continue, turn_state b l a user_input st)
            | Raised e => handled b e (turn_state b l a user_input st)
            end
        end
  end.
Proof.
  unfold loop_body. rw try_except_handled.
  unfold input, emit, lift_result, raise, mbind, M_bind, mret, M_ret.
  destruct line as [user_input|e]; [|done].
  destruct (is_exit_command user_input).
  - unfold print. destruct (stdout_write b goodbye_text) as [e|]; [done|].
    by rw log_log.
  - unfold call_orchestrator. cbn [heap log].
    destruct (heap st !! l) as [a|]; [|done].
    rw turn_state_eq.
    by destruct (fst (agent_invoke b a user_input)) as [x|e].
Qed.

Lemma interactive_loop_cons b l line rest st :
  interactive_loop b l (line :: rest) st =
  match loop_body b l line st with
  | (Ret Break, st') => (Ret tt, st')
  | (Ret Continue, st') => interactive_loop b l rest st'
  | (Raise e, st') => (Raise e, st')
  | (Blocked, st') => (Blocked, st')
  end.
Proof.
  cbn [interactive_loop]. unfold mbind, M_bind.
  destruct (loop_body b l line st) as [[[]|e|] st']; reflexivity.
Qed.

(** A handler gives [Break], [Continue] or an exception: it never blocks.
    What it raises is the exception it was given, when that is of neither
    class, or the exception of one of its prints. *)
Lemma handled_raise b e st e' st' :
  handled b e st = (Raise e', st') →
  (isinstance_Exception e' = false ∧ isinstance_KeyboardInterrupt e' = false)
  ∨ ∃ s, stdout_write b s = Some e'.
Proof.
  unfold handled.
  destruct (isinstance_KeyboardInterrupt e) eqn:Hk.
  { destruct (stdout_write b interrupted_text) eqn:Hw; [|done].
    intros [= <- <-]. right. eauto. }
  destruct (isinstance_Exception e) eqn:He.
  { destruct (stdout_write b (error_text e)) eqn:Hw1.
    { intros [= <- <-]. right. eauto. }
    destruct (stdout_write b retry_text) eqn:Hw2; [|done].
    intros [= <- <-]. right. eauto. }
  intros [= <- <-]. by left.
Qed.

Lemma handled_not_blocked b e st st' : handled b e st ≠ (Blocked, st').
Proof.
  unfold handled.
  destruct (isinstance_KeyboardInterrupt e).
  { by destruct (stdout_write b interrupted_text). }
  destruct (isinstance_Exception e); [|done].
  destruct (stdout_write b (error_text e)); [done|].
  by destruct (stdout_write b retry_text).
Qed.

Lemma loop_body_raise b l line st e st' :
  loop_body b l line st = (Raise e, st') →
  (isinstance_Exception e = false ∧ isinstance_KeyboardInterrupt e = false)
  ∨ ∃ s, stdout_write b s = Some e.
Proof.
  rw loop_body_eq. destruct line as [user_input|e0].
  - destruct (is_exit_command user_input).
    { destruct (stdout_write b goodbye_text); [apply handled_raise|done]. }
    destruct (heap st !! l) as [a|]; [|apply handled_raise].
    destruct (fst (agent_invoke b a user_input)); [done|]. apply handled_raise.
  - apply handled_raise.
Qed.

Lemma loop_body_not_blocked b l line st st' :
  loop_body b l line st ≠ (Blocked, st').
Proof.
  rw loop_body_eq. destruct line as [user_input|e].
  - destruct (is_exit_command user_input).
    { destruct (stdout_write b goodbye_text); [apply handled_not_blocked|done]. }
    destruct (heap st !! l) as [a|]; [|apply handled_not_blocked].
    destruct (fst (agent_invoke b a user_input)) as [|e]; [done|].
    apply handled_not_blocked.
  - apply handled_not_blocked.
Qed.

(** ** The loop *)

(** What leaves the loop as an exception is of neither class, or was raised
    by a print of the script. *)
Lemma interactive_loop_raise b l lines : ∀ st e st',
  interactive_loop b l lines st = (Raise e, st') →
  (isinstance_Exception e = false ∧ isinstance_KeyboardInterrupt e = false)
  ∨ ∃ s, stdout_write b s = Some e.
Proof.
  induction lines as [|line rest IH]; intros st e st'; [done|].
  rw interactive_loop_cons.
  destruct (loop_body b l line st) as [[[]|e0|] st0] eqn:Hbody; try done.
  - apply IH.
  - intros ?; simplify_eq. eapply loop_body_raise; eassumption.
Qed.

(** A loop that is blocked after the lines [pre] goes on with the lines
    that follow, from the state it was blocked in. *)
Lemma interactive_loop_app b l pre more : ∀ st st',
  interactive_loop b l pre st = (Blocked, st') →
  interactive_loop b l (pre ++ more) st = interactive_loop b l more st'.
Proof.
  induction pre as [|line rest IH]; intros st st'.
  - by intros [= <-].
  - cbn [app]. rw !interactive_loop_cons.
    destruct (loop_body b l line st) as [[[]|e0|] st0] eqn:Hbody; try done.
    + apply IH.
    + by apply loop_body_not_blocked in Hbody.
Qed.

(** ** Events of the loop, in general *)

Section LoopEvents.
Variables (b : backend) (l : nat) (P : event → Prop) (Q : Agent → Prop).
Hypothesis Q_set_messages : ∀ a ms, Q a → Q (set_messages a ms).
Hypothesis P_input : P (EvInput prompt_text).
Hypothesis P_goodbye : P (EvPrint goodbye_text).
Hypothesis P_interrupted : P (EvPrint interrupted_text).
Hypothesis P_retry : P (EvPrint retry_text).
Hypothesis P_error : ∀ e, isinstance_Exception e = true → P (EvPrint (error_text e)).
Hypothesis P_call : ∀ a q, Q a → P (EvAgentCall l a q).
Hypothesis P_sub : ∀ l' q, l' ≠ l → P (EvAgentCall l' weather_agent_config q).

Lemma handled_events e st :
  ∃ evs, trace (snd (handled b e st)) = trace st ++ evs
         ∧ Forall P evs
         ∧ heap (snd (handled b e st)) = heap st.
Proof.
  assert (Hnil : ∃ evs, trace st = trace st ++ evs ∧ Forall P evs
                        ∧ heap st = heap st).
  { exists []. split_and!; [by rw app_nil_r|constructor|done]. }
  unfold handled.
  destruct (isinstance_KeyboardInterrupt e).
  { destruct (stdout_write b interrupted_text); [done|]. cbn.
    eexists; split_and!; [reflexivity| |done]. by repeat constructor. }
  destruct (isinstance_Exception e) eqn:He; [|done].
  destruct (stdout_write b (error_text e)); [done|].
  destruct (stdout_write b retry_text); cbn.
  - eexists; split_and!; [reflexivity| |done]. repeat constructor; auto.
  - eexists; split_and!; [reflexivity| |done]. repeat constructor; auto.
Qed.

Lemma turn_state_events a line st :
  heap st !! l = Some a → Q a →
  ∃ evs, trace (turn_state b l a line st) = trace st ++ evs
         ∧ Forall P evs
         ∧ heap (turn_state b l a line st) !! l
           = Some (set_messages a (snd (agent_invoke b a line))).
Proof.
  intros Hl HQ. unfold turn_state. set (st1 := log st _).
  destruct (tool_runs_inv b a line st1) as [_ (evs & Htr & Hevs)].
  exists ([EvInput prompt_text; EvAgentCall l a line] ++ evs). split_and!.
  - cbn [trace store]. rw Htr. unfold st1. cbn. by rw -app_assoc.
  - apply Forall_app. split; [repeat constructor; auto|].
    eapply Forall_impl; [exact Hevs|]. intros ev (l' & q & -> & Hl').
    apply P_sub. intros ->. apply Hl'. apply elem_of_dom.
    unfold st1. cbn. by rw Hl.
  - cbn. by rw lookup_insert_eq.
Qed.

Lemma loop_body_events line st a :
  heap st !! l = Some a → Q a →
  ∃ evs a', trace (snd (loop_body b l line st)) = trace st ++ evs
            ∧ Forall P evs
            ∧ heap (snd (loop_body b l line st)) !! l = Some a'
            ∧ Q a'.
Proof.
  intros Hl HQ. rw loop_body_eq.
  assert (Hh : ∀ e st1 evs1 a1,
            trace st1 = trace st ++ evs1 → Forall P evs1 →
            heap st1 !! l = Some a1 → Q a1 →
            ∃ evs a', trace (snd (handled b e st1)) = trace st ++ evs
                      ∧ Forall P evs
                      ∧ heap (snd (handled b e st1)) !! l = Some a' ∧ Q a').
  { intros e st1 evs1 a1 Htr1 Hevs1 Hl1 HQ1.
    destruct (handled_events e st1) as (evs & Htr & Hevs & Hheap).
    exists (evs1 ++ evs), a1. rw Htr Htr1 Hheap app_assoc.
    split_and!; [done|by apply Forall_app|done|done]. }
  assert (Hin : Forall P [EvInput prompt_text]) by by repeat constructor.
  destruct line as [user_input|e].
  - destruct (is_exit_command user_input).
    + destruct (stdout_write b goodbye_text).
      * by apply (Hh _ _ [EvInput prompt_text] a).
      * eexists _, a. cbn. split_and!; [reflexivity| |done|done].
        by repeat constructor.
    + rw Hl.
      destruct (turn_state_events a user_input st Hl HQ)
        as (evs1 & Htr1 & Hevs1 & Hl1).
      destruct (fst (agent_invoke b a user_input)) as [x|e].
      * eexists _, _. cbn [snd]. split_and!; [exact Htr1|done|exact Hl1|].
        by apply Q_set_messages.
      * eapply Hh; [exact Htr1|done|exact Hl1|]. by apply Q_set_messages.
  - by apply (Hh _ _ [EvInput prompt_text] a).
Qed.

Lemma interactive_loop_events lines : ∀ st a,
  heap st !! l = Some a → Q a →
  ∃ evs a', trace (snd (interactive_loop b l lines st)) = trace st ++ evs
            ∧ Forall P evs
            ∧ heap (snd (interactive_loop b l lines st)) !! l = Some a'
            ∧ Q a'.
Proof.
  induction lines as [|line rest IH]; intros st a Hl HQ.
  - exists [], a. cbn. by rw app_nil_r.
  - rw interactive_loop_cons.
    destruct (loop_body_events line st a Hl HQ)
      as (evs & a' & Htr & Hevs & Hl' & HQ').
    destruct (loop_body b l line st) as [[[]|e|] st']; cbn [snd] in *;
      [|by exists evs, a'..].
    destruct (IH st' a' Hl' HQ') as (evs2 & a2 & Htr2 & Hevs2 & Hl2 & HQ2).
    exists (evs ++ evs2), a2. rw Htr2 Htr app_assoc.
    split_and!; [done|by apply Forall_app|done|done].
Qed.
End LoopEvents.

(** What a loop keeps: the orchestrator stays where it is with its tools,
    and the turns add only prompts, printed lines, calls of it and calls of
    new sub-agents. *)
Lemma interactive_loop_inv b l ts lines : ∀ st a,
  heap st !! l = Some a → tools a = ts →
  ∃ evs a', trace (snd (interactive_loop b l lines st)) = trace st ++ evs
            ∧ Forall (turn_event l ts) evs
            ∧ heap (snd (interactive_loop b l lines st)) !! l = Some a'
            ∧ tools a' = ts.
Proof.
  apply (interactive_loop_events b l (turn_event l ts) (λ a, tools a = ts));
    cbn; unfold orchestrator_or_sub_agent; auto.
Qed.

(** ** Setting up the session *)

Lemma session_setup_eq w c st :
  session_setup w c st =
  match mcp_list_tools w with
  | Raised e => (Raise e, log st [EvListTools])
  | Ok names =>
      let a := orchestrator_config (MCPAgentTool <$> names) in
      match agent_init (llm w) a with
      | Some e => (Raise e, log st [EvListTools])
      | None =>
          let l := fresh (dom (heap st)) in
          match stdout_write (llm w) banner_text with
          | Some e => (Raise e, log (store l a st) [EvListTools])
          | None =>
              match stdout_write (llm w) hint_text with
              | Some e =>
                  (Raise e,
                   log (store l a st) [EvListTools; EvPrint banner_text])
              | None =>
                  (Ret l,
                   log (store l a st)
                     [EvListTools; EvPrint banner_text; EvPrint hint_text])
              end
          end
      end
  end.
Proof.
  unfold session_setup, list_tools_sync, alloc_agent, print, emit, lift_result,
    raise, mbind, M_bind, mret, M_ret.
  destruct (mcp_list_tools w) as [names|e]; cbn; [|done].
  destruct (agent_init _ _); cbn; [done|].
  destruct (stdout_write (llm w) banner_text); cbn; [by rw -!log_store|].
  destruct (stdout_write (llm w) hint_text); cbn;
    by rw -!log_store !log_log.
Qed.

(** The running script, case by case. *)
Lemma run_eq w :
  run w =
  match load_credentials (environ w) with
  | Raised e => (Raise e, init_process)
  | Ok creds =>
      let c := {| server_parameters :=
                    stdio_server_parameters (fst creds) (snd creds) |} in
      match mcp_enter w with
      | Some e => (Raise e, init_process)
      | None =>
          match session_body w c
                  (log init_process [EvSessionOpen (server_parameters c)]) with
          | (Ret _, st) => (Ret tt, log st [EvSessionClose])
          | (Raise e, st) => (Raise e, log st [EvSessionClose])
          | (Blocked, st) => (Blocked, st)
          end
      end
  end.
Proof.
  unfold run, script, with_, MCPClient_enter, MCPClient_exit, emit, lift_result,
    raise, mbind, M_bind, mret, M_ret.
  destruct (load_credentials (environ w)) as [creds|e]; cbn; [|done].
  destruct (mcp_enter w); cbn; [done|].
  destruct (session_body _ _ _) as [[[]|e|] st]; done.
Qed.

(** The script from the start of the loop on. *)
Lemma run_of_loop w creds l st0 :
  load_credentials (environ w) = Ok creds →
  mcp_enter w = None →
  session_setup w
    {| server_parameters := stdio_server_parameters (fst creds) (snd creds) |}
    (log init_process
       [EvSessionOpen (stdio_server_parameters (fst creds) (snd creds))])
  = (Ret l, st0) →
  run w =
  match interactive_loop (llm w) l (stdin w) st0 with
  | (Ret _, st) => (Ret tt, log st [EvSessionClose])
  | (Raise e, st) => (Raise e, log st [EvSessionClose])
  | (Blocked, st) => (Blocked, st)
  end.
Proof.
  intros Hc Henter Hsetup. rw run_eq Hc. cbn zeta. rw Henter.
  unfold session_body, mbind, M_bind. cbn [server_parameters]. by rw Hsetup.
Qed.

(** A setup that succeeds: the orchestrator is the first object of the
    store, and the listing and the two printed lines are in the trace. *)
Lemma session_setup_Ret w c names p :
  mcp_list_tools w = Ok names →
  agent_init (llm w) (orchestrator_config (MCPAgentTool <$> names)) = None →
  stdout_write (llm w) banner_text = None →
  stdout_write (llm w) hint_text = None →
  session_setup w c (log init_process [EvSessionOpen p])
  = (Ret orchestrator_loc,
     log (store orchestrator_loc
            (orchestrator_config (MCPAgentTool <$> names))
            (log init_process [EvSessionOpen p]))
       [EvListTools; EvPrint banner_text; EvPrint hint_text]).
Proof.
  intros Hnames Hinit Hbanner Hhint.
  rw session_setup_eq Hnames. cbn zeta. by rw Hinit Hbanner Hhint.
Qed.

Lemma turn_event_body_event l ts ev : turn_event l ts ev → body_event l ts ev.
Proof. destruct ev; cbn; tauto. Qed.

(** The body of the [with] statement adds no session event, and every call
    of an agent in it is a call of the orchestrator with its tools or a call
    of a new sub-agent. *)
Lemma session_body_inv w c st ts :
  (∀ names, mcp_list_tools w = Ok names →
            ts = orchestrator_tools (MCPAgentTool <$> names)) →
  ∃ evs, trace (snd (session_body w c st)) = trace st ++ evs
         ∧ Forall (body_event (fresh (dom (heap st))) ts) evs.
Proof.
  intros Hts. unfold session_body, mbind, M_bind. rw session_setup_eq.
  destruct (mcp_list_tools w) as [names|e]; cbn zeta.
  - destruct (agent_init _ _); cbn.
    { eexists; split; [done|]. by repeat constructor. }
    destruct (stdout_write (llm w) banner_text); cbn.
    { eexists; split; [done|]. by repeat constructor. }
    destruct (stdout_write (llm w) hint_text); cbn.
    { eexists; split; [done|]. by repeat constructor. }
    set (l := fresh _). set (st1 := log _ _).
    destruct (interactive_loop_inv (llm w) l ts (stdin w) st1
                (orchestrator_config (MCPAgentTool <$> names)))
      as (evs & a' & Htr & Hevs & _).
    { unfold st1. cbn. by rw lookup_insert_eq. }
    { by rw (Hts names). }
    eexists. rw Htr. unfold st1. cbn. rw -app_assoc. split; [reflexivity|].
    apply Forall_app. split; [by repeat constructor|].
    eapply Forall_impl; [exact Hevs|]. apply turn_event_body_event.
  - cbn. eexists; split; [done|]. by repeat constructor.
Qed.

(** ** Counting sessions in a trace *)

Lemma sessions_opened_app tr1 tr2 :
  sessions_opened (tr1 ++ tr2) = sessions_opened tr1 + sessions_opened tr2.
Proof. unfold sessions_opened. by rw filter_app length_app. Qed.

Lemma sessions_closed_app tr1 tr2 :
  sessions_closed (tr1 ++ tr2) = sessions_closed tr1 + sessions_closed tr2.
Proof. unfold sessions_closed. by rw filter_app length_app. Qed.

Lemma body_events_no_session l ts evs :
  Forall (body_event l ts) evs →
  sessions_opened evs = 0 ∧ sessions_closed evs = 0.
Proof.
  induction 1 as [|ev evs Hev _ [IHo IHc]]; [done|].
  change (ev :: evs) with ([ev] ++ evs).
  rw sessions_opened_app sessions_closed_app IHo IHc.
  by destruct ev.
Qed.

(** ** The session scope *)

Lemma world_tools_spec w names :
  mcp_list_tools w = Ok names →
  world_tools w = orchestrator_tools (MCPAgentTool <$> names).
Proof. unfold world_tools. by intros ->. Qed.

(** The trace of a run: nothing at all when the script stops before the
    [with] statement, else the opening of the session, events of the body,
    and the teardown unless the script is still blocked in the body. *)
Lemma run_trace w :
  (trace (snd (run w)) = [] ∧ ∃ e, fst (run w) = Raise e)
  ∨ (∃ p evs, Forall (body_event orchestrator_loc (world_tools w)) evs
       ∧ ((fst (run w) = Blocked
           ∧ trace (snd (run w)) = EvSessionOpen p :: evs)
          ∨ (fst (run w) ≠ Blocked
             ∧ trace (snd (run w)) = EvSessionOpen p :: evs ++ [EvSessionClose]))).
Proof.
  rw run_eq.
  destruct (load_credentials (environ w)) as [creds|e]; [|left; eauto].
  cbn zeta. destruct (mcp_enter w) as [e|]; [left; eauto|].
  right. set (c := {| server_parameters := _ |}). set (st0 := log _ _).
  destruct (session_body_inv w c st0 (world_tools w)) as (evs & Htr & Hevs).
  { intros names. apply world_tools_spec. }
  exists (server_parameters c), evs. split; [done|].
  destruct (session_body w c st0) as [[[]|e|] st]; cbn [fst snd] in *.
  - right. split; [done|]. cbn. by rw Htr.
  - right. split; [done|]. cbn. by rw Htr.
  - left. split; [done|]. by rw Htr.
Qed.



(** ** Traces that only grow *)

Lemma turn_state_trace b l a line st :
  ∃ evs, trace (turn_state b l a line st)
         = trace st ++ [EvInput prompt_text; EvAgentCall l a line] ++ evs
         ∧ Forall (new_sub_agent_call st) evs.
Proof.
  unfold turn_state. set (st1 := log st _).
  destruct (tool_runs_inv b a line st1) as [_ (evs & Htr & Hevs)].
  exists evs. split.
  - cbn [trace store]. rw Htr. unfold st1. cbn. by rw -app_assoc.
  - exact Hevs.
Qed.

Lemma turn_state_heap b l a line st :
  heap (turn_state b l a line st) !! l
  = Some (set_messages a (snd (agent_invoke b a line))).
Proof. unfold turn_state. cbn. by rw lookup_insert_eq. Qed.

Lemma handled_extends b e st :
  ∃ evs, trace (snd (handled b e st)) = trace st ++ evs
         ∧ heap (snd (handled b e st)) = heap st.
Proof.
  destruct (handled_events b (λ _, True) I I (λ _ _, I) e st)
    as (evs & Htr & _ & Hheap).
  by exists evs.
Qed.

Lemma interactive_loop_extends b l lines st a :
  heap st !! l = Some a →
  ∃ evs, trace (snd (interactive_loop b l lines st)) = trace st ++ evs.
Proof.
  intros Hl.
  destruct (interactive_loop_inv b l (tools a) lines st a Hl eq_refl)
    as (evs & _ & Htr & _).
  by exists evs.
Qed.

(** Whatever the next line is, the loop first shows its prompt. *)
Lemma interactive_loop_prompts_first b l line rest st a :
  heap st !! l = Some a →
  ∃ evs, trace (snd (interactive_loop b l (line :: rest) st))
         = trace st ++ [EvInput prompt_text] ++ evs.
Proof.
  intros Hl.
  destruct (loop_body_events b l (λ _, True) (λ _, True)) with
    (line := line) (st := st) (a := a) as (evs0 & a' & _ & _ & Hl' & _);
    try done.
  assert (Hbody : ∃ evs, trace (snd (loop_body b l line st))
                         = trace st ++ [EvInput prompt_text] ++ evs).
  { rw loop_body_eq.
    assert (Hh : ∀ e, ∃ evs,
              trace (snd (handled b e (log st [EvInput prompt_text])))
              = trace st ++ [EvInput prompt_text] ++ evs).
    { intros e. destruct (handled_extends b e (log st [EvInput prompt_text]))
        as (evs & -> & _). exists evs. cbn. by rw -app_assoc. }
    destruct line as [user_input|e]; [|apply Hh].
    destruct (is_exit_command user_input).
    { destruct (stdout_write b goodbye_text); [apply Hh|]. by eexists. }
    rw Hl. destruct (turn_state_trace b l a user_input st) as (evs1 & Htr1 & _).
    destruct (fst (agent_invoke b a user_input)) as [x|e].
    - cbn [snd]. rw Htr1. by eexists.
    - destruct (handled_extends b e (turn_state b l a user_input st))
        as (evs2 & -> & _). rw Htr1. eexists. by rw -!app_assoc. }
  destruct Hbody as (evs1 & Htr1).
  rw interactive_loop_cons.
  destruct (loop_body b l line st) as [[[]|e|] st']; cbn [snd] in *;
    [|by exists evs1..].
  destruct (interactive_loop_extends b l rest st' a' Hl') as (evs2 & ->).
  rw Htr1. exists (evs1 ++ evs2). by rw -!app_assoc.
Qed.

(** A line that is no exit command goes to the orchestrator as it is. *)
Lemma interactive_loop_dispatch b l line rest st a :
  heap st !! l = Some a → is_exit_command line = false →
  ∃ evs, trace (snd (interactive_loop b l (Ok line :: rest) st))
         = trace st ++ [EvInput prompt_text; EvAgentCall l a line] ++ evs.
Proof.
  intros Hl Hexit.
  rw interactive_loop_cons loop_body_eq Hexit Hl.
  destruct (turn_state_trace b l a line st) as (evs1 & Htr1 & _).
  pose proof (turn_state_heap b l a line st) as Hl1.
  set (st1 := turn_state b l a line st) in *.
  destruct (fst (agent_invoke b a line)) as [x|e].
  - destruct (interactive_loop_extends b l rest st1 _ Hl1) as (evs2 & ->).
    rw Htr1. exists (evs1 ++ evs2). by rw -!app_assoc.
  - destruct (handled_extends b e st1) as (evs2 & Htr2 & Hheap2).
    destruct (handled b e st1) as [[[]|e'|] st2]; cbn [snd] in *.
    + destruct (interactive_loop_extends b l rest st2
                  (set_messages a (snd (agent_invoke b a line))))
        as (evs3 & ->); [by rw Hheap2|].
      rw Htr2 Htr1. exists (evs1 ++ evs2 ++ evs3). by rw -!app_assoc.
    + rw Htr2 Htr1. exists (evs1 ++ evs2). by rw -!app_assoc.
    + rw Htr2 Htr1. exists (evs1 ++ evs2). by rw -!app_assoc.
    + rw Htr2 Htr1. exists (evs1 ++ evs2). by rw -!app_assoc.
Qed.

(** ** The calls of agents in a run *)

Lemma run_agent_calls w l a input :
  EvAgentCall l a input ∈ trace (snd (run w)) →
  orchestrator_or_sub_agent orchestrator_loc (world_tools w) l a.
Proof.
  destruct (run_trace w) as [[-> _]|(p & evs & Hevs & Hcases)].
  { by intros ?%elem_of_nil. }
  rw Forall_forall in Hevs.
  destruct Hcases as [[_ ->]|[_ ->]].
  - intros [[=]|Hin]%elem_of_cons. by apply Hevs in Hin.
  - intros [[=]|[Hin|Hin]%elem_of_app]%elem_of_cons.
    + by apply Hevs in Hin.
    + by apply list_elem_of_singleton in Hin.
Qed.

(** C9. When the sub-agent can be built, a call of [weather_assistant]
    builds it anew at a free place of the store, with the weather prompt, the
    single tool [http_request] and an empty history, and calls it once with
    the query: this call is the one event the function adds, and the new
    object, with the history of that call, is the one change of the store.
    The result is read off the backend's answer to that fresh sub-agent, so
    it is the same from any two process states.  In a series of calls every
    call is made on such a fresh sub-agent, whatever the earlier calls left
    in the store, and in a run of the script every call of an agent other
    than the orchestrator is one. *)
Theorem weather_assistant_fresh_agent_per_call b query st1 st2 :
  agent_init b weather_agent_config = None →
  (system_prompt weather_agent_config = WEATHER_SYSTEM_PROMPT
   ∧ tools weather_agent_config = [http_request]
   ∧ messages weather_agent_config = [])
  ∧ (fresh (dom (heap st1)) ∉ dom (heap st1))
  ∧ snd (weather_assistant b query st1)
    = log (store (fresh (dom (heap st1)))
             (set_messages weather_agent_config
                (snd (agent_invoke b weather_agent_config query))) st1)
        [EvAgentCall (fresh (dom (heap st1))) weather_agent_config query]
  ∧ fst (weather_assistant b query st1)
    = match fst (agent_invoke b weather_agent_config query) with
      | Ok response => Ret (str_result response)
      | Raised e =>
          if isinstance_Exception e then
            Ret ("Error in weather assistant: " +:+ str_exn e)%string
          else Raise e
      end
  ∧ (∀ l, l ∈ dom (heap st1) →
          heap (snd (weather_assistant b query st1)) !! l = heap st1 !! l)
  ∧ fst (weather_assistant b query st1) = fst (weather_assistant b query st2)
  ∧ (∀ earlier,
       ∃ evs, trace (after_weather_calls b (earlier ++ [query]) st1)
              = trace st1 ++ evs
              ∧ Forall2 (λ ev q, ∃ l, ev = EvAgentCall l weather_agent_config q)
                  evs (earlier ++ [query]))
  ∧ (∀ earlier1 earlier2,
       fst (weather_assistant b query (after_weather_calls b earlier1 st1))
       = fst (weather_assistant b query (after_weather_calls b earlier2 st2)))
  ∧ (∀ w l a q, EvAgentCall l a q ∈ trace (snd (run w)) →
       l ≠ orchestrator_loc → a = weather_agent_config).
Proof.
  intros Hinit. split_and!; try done.
  - apply is_fresh.
  - by apply weather_assistant_snd.
  - rw weather_assistant_fst. unfold weather_try_block. by rw Hinit.
  - intros l. apply weather_assistant_heap.
  - by rw !weather_assistant_fst.
  - intros earlier. by apply after_weather_calls_calls.
  - intros earlier1 earlier2. by rw !weather_assistant_fst.
  - intros w l a q Hin Hl.
    destruct (run_agent_calls w l a q Hin) as [[-> _]|[_ ->]]; done.
Qed.

(** A second call, after a first one has left its history in the store, is
    made on a second sub-agent with an empty history. *)
Lemma weather_assistant_fresh_agent_per_call_witness :
  agent_init echo_backend weather_agent_config = None
  ∧ messages
    <$> (heap (snd (weather_assistant echo_backend "Boston" init_process)) !! 0)
    = Some [ {| msg_role := user; msg_content := "Boston" |};
             {| msg_role := assistant; msg_content := "Boston" |} ]
  ∧ trace (snd (weather_assistant echo_backend "Paris"
                  (snd (weather_assistant echo_backend "Boston" init_process))))
    = [EvAgentCall 0 weather_agent_config "Boston";
       EvAgentCall 1 weather_agent_config "Paris"].
Proof.
  split; [reflexivity|]. split; [by vm_compute|].
  destruct (weather_assistant_fresh_agent_per_call echo_backend "Paris"
              (snd (weather_assistant echo_backend "Boston" init_process))
              init_process eq_refl) as (_ & _ & -> & _).
  by vm_compute.
Defined.

(** ** The tools of the orchestrator *)

(** C10. In a world where the session is set up (credentials set, server
    started, tools listed, orchestrator built, banner and hint printed): the
    orchestrator is built with the tools listed by the server followed by
    [weather_assistant], [http_request] and [shell], in this order, so
    [shell] and [http_request] are among them; the setup leaves this object
    in the store; the first line that is no exit command is answered by a
    call of this object; every call of an agent in the run is a call of this
    object with exactly these tools, or a call of a sub-agent built by
    [weather_assistant]; and when the run stops the object still has these
    tools. *)
Theorem orchestrator_tools_are_fixed w creds names :
  load_credentials (environ w) = Ok creds →
  mcp_enter w = None →
  mcp_list_tools w = Ok names →
  agent_init (llm w) (orchestrator_config (MCPAgentTool <$> names)) = None →
  stdout_write (llm w) banner_text = None →
  stdout_write (llm w) hint_text = None →
  tools (orchestrator_config (MCPAgentTool <$> names))
  = (MCPAgentTool <$> names) ++ [weather_assistant_tool; http_request; shell]
  ∧ shell ∈ tools (orchestrator_config (MCPAgentTool <$> names))
  ∧ http_request ∈ tools (orchestrator_config (MCPAgentTool <$> names))
  ∧ session_setup w
      {| server_parameters := stdio_server_parameters (fst creds) (snd creds) |}
      (log init_process
         [EvSessionOpen (stdio_server_parameters (fst creds) (snd creds))])
    = (Ret orchestrator_loc,
       log (store orchestrator_loc
              (orchestrator_config (MCPAgentTool <$> names))
              (log init_process
                 [EvSessionOpen
                    (stdio_server_parameters (fst creds) (snd creds))]))
         [EvListTools; EvPrint banner_text; EvPrint hint_text])
  ∧ (∀ line rest, stdin w = Ok line :: rest → is_exit_command line = false →
       ∃ evs, trace (snd (run w))
              = [EvSessionOpen (stdio_server_parameters (fst creds) (snd creds));
                 EvListTools; EvPrint banner_text; EvPrint hint_text;
                 EvInput prompt_text;
                 EvAgentCall orchestrator_loc
                   (orchestrator_config (MCPAgentTool <$> names)) line]
                ++ evs)
  ∧ (∀ l a input, EvAgentCall l a input ∈ trace (snd (run w)) →
       (l = orchestrator_loc
        ∧ tools a = (MCPAgentTool <$> names)
                    ++ [weather_assistant_tool; http_request; shell])
       ∨ (l ≠ orchestrator_loc ∧ a = weather_agent_config))
  ∧ (∃ a', heap (snd (run w)) !! orchestrator_loc = Some a'
           ∧ tools a' = (MCPAgentTool <$> names)
                        ++ [weather_assistant_tool; http_request; shell]).
Proof.
  intros Hc Henter Hnames Hinit Hbanner Hhint.
  pose proof (session_setup_Ret w
                {| server_parameters :=
                     stdio_server_parameters (fst creds) (snd creds) |}
                names (stdio_server_parameters (fst creds) (snd creds))
                Hnames Hinit Hbanner Hhint) as Hsetup.
  set (st0 := log (store orchestrator_loc _ _) _) in *.
  assert (Hl0 : heap st0 !! orchestrator_loc
                = Some (orchestrator_config (MCPAgentTool <$> names))).
  { unfold st0. cbn. by rw lookup_insert_eq. }
  pose proof (run_of_loop w creds orchestrator_loc st0 Hc Henter Hsetup) as Hrun.
  split_and!.
  - done.
  - cbn. set_solver.
  - cbn. set_solver.
  - exact Hsetup.
  - intros line rest Hstdin Hexit.
    destruct (interactive_loop_dispatch (llm w) orchestrator_loc line rest st0
                _ Hl0 Hexit) as (evs & Htr).
    rw Hrun Hstdin. clear Hrun. revert Htr.
    destruct (interactive_loop (llm w) orchestrator_loc (Ok line :: rest) st0)
      as [[[]|e|] st];
      cbn [snd]; intros Htr; cbn [trace log]; rw Htr; unfold st0; cbn;
      eexists; by rw -?app_assoc.
  - intros l a input Hin.
    destruct (run_agent_calls w l a input Hin) as [[-> Hts]|[Hl ->]];
      [left|by right].
    split; [done|]. by rw Hts (world_tools_spec w names Hnames).
  - destruct (interactive_loop_inv (llm w) orchestrator_loc
                (tools (orchestrator_config (MCPAgentTool <$> names)))
                (stdin w) st0 _ Hl0 eq_refl) as (_ & a' & _ & _ & Hl' & Hts).
    exists a'. split; [|done]. rw Hrun.
    by destruct (interactive_loop _ _ _ _) as [[[]|e|] st].
Qed.

(** A run in which the model uses the weather tool: the orchestrator is
    called with the five tools, the sub-agent with [http_request] alone. *)
Lemma orchestrator_tools_are_fixed_witness :
  trace (snd (run (demo_world weather_backend [Ok "Boston"; Ok "quit"]%string)))
  = [EvSessionOpen (stdio_server_parameters "k-123" "t-456");
     EvListTools; EvPrint banner_text; EvPrint hint_text;
     EvInput prompt_text;
     EvAgentCall 0
       (orchestrator_config
          (MCPAgentTool <$> ["search_shutterstock"; "echo"]%string)) "Boston";
     EvAgentCall 1 weather_agent_config "Boston";
     EvInput prompt_text; EvPrint goodbye_text; EvSessionClose]
  ∧ ∀ l a input,
      EvAgentCall l a input
      ∈ trace (snd (run (demo_world weather_backend
                           [Ok "Boston"; Ok "quit"]%string))) →
      (l = orchestrator_loc
       ∧ tools a = [MCPAgentTool "search_shutterstock"; MCPAgentTool "echo";
                    weather_assistant_tool; http_request; shell])
      ∨ (l ≠ orchestrator_loc ∧ a = weather_agent_config).
Proof.
  split; [by vm_compute|].
  apply (orchestrator_tools_are_fixed
           (demo_world weather_backend [Ok "Boston"; Ok "quit"]%string)
           ("k-123", "t-456")%string ["search_shutterstock"; "echo"]%string);
    by vm_compute.
Defined.

(** ** Errors and interrupts in a turn *)

(** C4, as the code has it.  When the call of the orchestrator for a line
    raises an exception of class [Exception] and the standard output takes
    the two lines of the report, the loop prints the message of the
    exception and the invitation to try again, and asks for the next line:
    it is then waiting at the prompt, it goes on with the lines that follow,
    and the next thing it does is to show the prompt; the same holds when
    [input()] itself raises the exception.  An [Exception] that leaves the
    loop is never the one of a turn: it was raised by a print of the script.
    With a standard output that takes every text, a run that ends with an
    [Exception] has not shown a single prompt. *)
Theorem turn_errors_do_not_stop_the_loop b l st a line e :
  heap st !! l = Some a →
  is_exit_command line = false →
  fst (agent_invoke b a line) = Raised e →
  isinstance_Exception e = true →
  stdout_write b (error_text e) = None →
  stdout_write b retry_text = None →
  interactive_loop b l [Ok line] st
  = (Blocked, log (turn_state b l a line st)
                [EvPrint (error_text e); EvPrint retry_text])
  ∧ (∀ rest,
       interactive_loop b l (Ok line :: rest) st
       = interactive_loop b l rest
           (log (turn_state b l a line st)
              [EvPrint (error_text e); EvPrint retry_text]))
  ∧ (∀ next rest,
       ∃ evs, trace (snd (interactive_loop b l (Ok line :: next :: rest) st))
              = trace (turn_state b l a line st)
                ++ [EvPrint (error_text e); EvPrint retry_text;
                    EvInput prompt_text] ++ evs)
  ∧ interactive_loop b l [Raised e] st
    = (Blocked, log st [EvInput prompt_text; EvPrint (error_text e);
                        EvPrint retry_text])
  ∧ (∀ rest,
       interactive_loop b l (Raised e :: rest) st
       = interactive_loop b l rest
           (log st [EvInput prompt_text; EvPrint (error_text e);
                    EvPrint retry_text]))
  ∧ (∀ lines st0 e' st',
       interactive_loop b l lines st0 = (Raise e', st') →
       isinstance_Exception e' = true →
       ∃ s, stdout_write b s = Some e')
  ∧ (∀ w e', (∀ s, stdout_write (llm w) s = None) →
       fst (run w) = Raise e' → isinstance_Exception e' = true →
       prompts (trace (snd (run w))) = 0).
Proof.
  intros Hl Hexit Hr He Hw1 Hw2.
  pose proof (Exception_not_KeyboardInterrupt e He) as Hk.
  assert (Hturn : ∀ rest,
    interactive_loop b l (Ok line :: rest) st
    = interactive_loop b l rest
        (log (turn_state b l a line st)
           [EvPrint (error_text e); EvPrint retry_text])).
  { intros rest. rw interactive_loop_cons loop_body_eq Hexit Hl Hr.
    unfold handled. by rw Hk He Hw1 Hw2. }
  assert (Hread : ∀ rest,
    interactive_loop b l (Raised e :: rest) st
    = interactive_loop b l rest
        (log st [EvInput prompt_text; EvPrint (error_text e);
                 EvPrint retry_text])).
  { intros rest. rw interactive_loop_cons loop_body_eq.
    unfold handled. rw Hk He Hw1 Hw2. by rw log_log. }
  split_and!.
  - by rw Hturn.
  - exact Hturn.
  - intros next rest. rw Hturn.
    set (st1 := log _ _).
    destruct (interactive_loop_prompts_first b l next rest st1
                (set_messages a (snd (agent_invoke b a line))))
      as (evs & ->).
    { unfold st1. cbn [heap log]. apply turn_state_heap. }
    exists evs. unfold st1. cbn. by rw -!app_assoc.
  - by rw Hread.
  - exact Hread.
  - intros lines st0 e' st' Hloop He'.
    destruct (interactive_loop_raise _ _ _ _ _ _ Hloop) as [[? _]|?];
      [congruence|done].
  - intros w e' Hout. rw run_eq.
    destruct (load_credentials (environ w)) as [creds|e0]; [|done].
    cbn zeta. destruct (mcp_enter w) as [e0|]; [done|].
    unfold session_body, mbind, M_bind. rw session_setup_eq.
    destruct (mcp_list_tools w) as [names|e0]; cbn zeta; [|done].
    destruct (agent_init _ _) as [e0|]; [done|]. rw !Hout.
    destruct (interactive_loop _ _ _ _) as [[[]|e0|] st'] eqn:Hloop; [done| |done].
    cbn. intros [= <-] He'.
    destruct (interactive_loop_raise _ _ _ _ _ _ Hloop) as [[? _]|[s Hs]];
      [congruence|]. by rw Hout in Hs.
Qed.

(** After a failed call that can be reported, the loop waits for the next
    line. *)
Lemma turn_errors_do_not_stop_the_loop_witness :
  heap (store 0 (orchestrator_config []) init_process) !! 0
  = Some (orchestrator_config [])
  ∧ is_exit_command "hello" = false
  ∧ fst (agent_invoke failing_backend (orchestrator_config []) "hello")
    = Raised (ConnectionError "connection refused")
  ∧ isinstance_Exception (ConnectionError "connection refused") = true
  ∧ interactive_loop failing_backend 0 [Ok "hello"%string]
      (store 0 (orchestrator_config []) init_process)
    = (Blocked,
       log (store 0 (set_messages (orchestrator_config [])
                       [ {| msg_role := user; msg_content := "hello" |} ])
              (store 0 (orchestrator_config []) init_process))
         [EvInput prompt_text;
          EvAgentCall 0 (orchestrator_config []) "hello";
          EvPrint (error_text (ConnectionError "connection refused"));
          EvPrint retry_text]).
Proof.
  split_and!; [by vm_compute..|].
  destruct (turn_errors_do_not_stop_the_loop failing_backend 0
              (store 0 (orchestrator_config []) init_process)
              (orchestrator_config []) "hello"
              (ConnectionError "connection refused")) as [-> _];
    by vm_compute.
Defined.

(** C4 as stated fails: on a standard output with the ASCII encoding, the
    call for "hello" raises an [Exception] whose message has an accented
    letter; the report cannot be printed, the exception of the print leaves
    the loop, and the script ends with it: "again" is never asked for. *)
Lemma unprintable_report_ends_the_loop :
  fst (agent_invoke accented_backend
         (orchestrator_config
            (MCPAgentTool <$> ["search_shutterstock"; "echo"]%string)) "hello")
  = Raised (ConnectionError accented_message)
  ∧ isinstance_Exception (ConnectionError accented_message) = true
  ∧ fst (run (demo_world accented_backend [Ok "hello"; Ok "again"]%string))
    = Raise UnicodeEncodeError
  ∧ prompts (trace (snd (run (demo_world accented_backend
                                [Ok "hello"; Ok "again"]%string)))) = 1
  ∧ exit_code (fst (run (demo_world accented_backend
                           [Ok "hello"; Ok "again"]%string))) = Some 1%Z.
Proof. by vm_compute. Qed.

(** C5, as the code has it.  A [KeyboardInterrupt] ends the loop wherever it
    arrives: raised by [input()], or raised by the call of the orchestrator
    for a line, it makes the loop print the interruption message and stop,
    and the lines that follow are not read.  (When the message cannot be
    written, the loop stops all the same, with the exception of the
    print.) *)
Theorem interrupt_exits_the_loop b l st rest e :
  isinstance_KeyboardInterrupt e = true →
  interactive_loop b l (Raised e :: rest) st
  = match stdout_write b interrupted_text with
    | None =>
        (Ret tt, log st [EvInput prompt_text; EvPrint interrupted_text])
    | Some e' => (Raise e', log st [EvInput prompt_text])
    end
  ∧ (∀ a line,
       heap st !! l = Some a →
       is_exit_command line = false →
       fst (agent_invoke b a line) = Raised e →
       interactive_loop b l (Ok line :: rest) st
       = match stdout_write b interrupted_text with
         | None =>
             (Ret tt,
              log (turn_state b l a line st) [EvPrint interrupted_text])
         | Some e' => (Raise e', turn_state b l a line st)
         end).
Proof.
  intros Hk. split.
  - rw interactive_loop_cons loop_body_eq. unfold handled. rw Hk.
    destruct (stdout_write b interrupted_text); [done|]. by rw log_log.
  - intros a line Hl Hexit Hr.
    rw interactive_loop_cons loop_body_eq Hexit Hl Hr.
    unfold handled. rw Hk.
    by destruct (stdout_write b interrupted_text).
Qed.

Lemma interrupt_exits_the_loop_witness :
  isinstance_KeyboardInterrupt KeyboardInterrupt_exn = true
  ∧ interactive_loop echo_backend 0
      [Raised KeyboardInterrupt_exn; Ok "hello"%string] init_process
    = (Ret tt, log init_process [EvInput prompt_text; EvPrint interrupted_text]).
Proof.
  split; [reflexivity|].
  by apply (interrupt_exits_the_loop echo_backend 0 init_process
              [Ok "hello"%string] KeyboardInterrupt_exn).
Defined.

(** C5 as stated fails: Ctrl-C during the turn of "hello" ends the loop and
    the script; the line "again" that follows is never asked for. *)
Lemma interrupt_during_turn_ends_loop :
  fst (run (demo_world interrupted_backend [Ok "hello"; Ok "again"]%string))
  = Ret tt
  ∧ prompts (trace (snd (run (demo_world interrupted_backend
                                [Ok "hello"; Ok "again"]%string)))) = 1
  ∧ last (trace (snd (run (demo_world interrupted_backend
                             [Ok "hello"; Ok "again"]%string))))
    = Some EvSessionClose.
Proof. by vm_compute. Qed.

(** ** Startup *)

Lemma load_credentials_Ok environ k t :
  load_credentials environ = Ok (k, t) ↔
  set_to environ "API_KEY" k ∧ set_to environ "SHUTTERSTOCK_API_TOKEN" t.
Proof.
  unfold load_credentials, set_to, environ_get.
  destruct (environ !! "API_KEY"%string) as [[|c1 s1]|];
    destruct (environ !! "SHUTTERSTOCK_API_TOKEN"%string) as [[|c2 s2]|];
    cbn; intuition (auto; congruence).
Qed.

Lemma load_credentials_Raised environ :
  (unset environ "API_KEY" →
   load_credentials environ
   = Raised (ValueError "API_KEY environment variable is not set."))
  ∧ (¬ unset environ "API_KEY" → unset environ "SHUTTERSTOCK_API_TOKEN" →
     load_credentials environ
     = Raised (ValueError
                 "SHUTTERSTOCK_API_TOKEN environment variable is not set.")).
Proof.
  unfold load_credentials, unset, environ_get.
  destruct (environ !! "API_KEY"%string) as [[|c1 s1]|];
    destruct (environ !! "SHUTTERSTOCK_API_TOKEN"%string) as [[|c2 s2]|];
    cbn; intuition (auto; congruence).
Qed.

(** Past the credential checks and [__enter__], the trace starts with the
    opening of the session, and no other session is opened after it. *)
Lemma run_opens_session w creds :
  load_credentials (environ w) = Ok creds →
  mcp_enter w = None →
  ∃ evs, trace (snd (run w))
         = EvSessionOpen (stdio_server_parameters (fst creds) (snd creds)) :: evs
         ∧ Forall (λ ev, is_open ev = false) evs.
Proof.
  intros Hc Henter. rw run_eq Hc. cbn zeta. rw Henter.
  set (c := {| server_parameters := _ |}). set (st0 := log _ _).
  destruct (session_body_inv w c st0 (world_tools w)) as (evs & Htr & Hevs).
  { intros names. apply world_tools_spec. }
  assert (Hno : Forall (λ ev, is_open ev = false) evs).
  { eapply Forall_impl; [exact Hevs|]. by intros []. }
  destruct (session_body w c st0) as [[[]|e|] st1]; cbn [fst snd] in *;
    cbn; rw Htr; cbn.
  - exists (evs ++ [EvSessionClose]). split; [done|].
    apply Forall_app. split; [done|]. by repeat constructor.
  - exists (evs ++ [EvSessionClose]). split; [done|].
    apply Forall_app. split; [done|]. by repeat constructor.
  - by exists evs.
Qed.

(** C6, as the code has it.  When one of the two variables is unset (absent,
    or present and empty) the script raises the [ValueError] that names it
    and the process is as it started: no session, no event, no object.
    When both are set to non-empty values the script goes on to the [with]
    statement: the first event is the opening of the session with the
    parameters built from the two values, unless [__enter__] itself
    raises. *)
Theorem startup_checks_credentials_first w :
  (unset (environ w) "API_KEY" →
   run w = (Raise (ValueError "API_KEY environment variable is not set."),
            init_process))
  ∧ (¬ unset (environ w) "API_KEY" →
     unset (environ w) "SHUTTERSTOCK_API_TOKEN" →
     run w = (Raise (ValueError
                       "SHUTTERSTOCK_API_TOKEN environment variable is not set."),
              init_process))
  ∧ (∀ k t, set_to (environ w) "API_KEY" k →
            set_to (environ w) "SHUTTERSTOCK_API_TOKEN" t →
       (mcp_enter w = None →
        ∃ evs, trace (snd (run w))
               = EvSessionOpen (stdio_server_parameters k t) :: evs)
       ∧ (∀ e, mcp_enter w = Some e → run w = (Raise e, init_process))).
Proof.
  destruct (load_credentials_Raised (environ w)) as [Hkey Htoken].
  split_and!.
  - intros Hu. by rw run_eq (Hkey Hu).
  - intros Hs Hu. by rw run_eq (Htoken Hs Hu).
  - intros k t Hk Ht.
    assert (Hc : load_credentials (environ w) = Ok (k, t))
      by by apply load_credentials_Ok.
    split.
    + intros Henter.
      destruct (run_opens_session w (k, t) Hc Henter) as (evs & Htr & _).
      by exists evs.
    + intros e Henter. by rw run_eq Hc /= Henter.
Qed.

Lemma startup_checks_credentials_first_witness :
  set_to good_environ "API_KEY" "k-123"
  ∧ set_to good_environ "SHUTTERSTOCK_API_TOKEN" "t-456"
  ∧ ∃ evs, trace (snd (run (demo_world echo_backend [Ok "exit"%string])))
           = EvSessionOpen (stdio_server_parameters "k-123" "t-456") :: evs.
Proof.
  assert (H1 : set_to good_environ "API_KEY" "k-123") by by vm_compute.
  assert (H2 : set_to good_environ "SHUTTERSTOCK_API_TOKEN" "t-456")
    by by vm_compute.
  split_and!; [done..|].
  by apply (proj2 (proj2 (startup_checks_credentials_first
                            (demo_world echo_backend [Ok "exit"%string])))
              "k-123"%string "t-456"%string H1 H2).
Defined.

(** C6 as stated fails: both variables are present, [API_KEY] with the empty
    value, and the script stops with the [ValueError] before any session. *)
Lemma both_present_yet_startup_fails :
  is_Some (environ empty_key_world !! "API_KEY"%string)
  ∧ is_Some (environ empty_key_world !! "SHUTTERSTOCK_API_TOKEN"%string)
  ∧ mcp_enter empty_key_world = None
  ∧ run empty_key_world
    = (Raise (ValueError "API_KEY environment variable is not set."),
       init_process)
  ∧ sessions_opened (trace (snd (run empty_key_world))) = 0.
Proof. split_and!; try by vm_compute. all: by eexists; vm_compute. Qed.

(** ** The env argument of the server parameters *)

Lemma load_credentials_agree (environ1 environ2 : gmap string string) :
  environ1 !! "API_KEY"%string = environ2 !! "API_KEY"%string →
  environ1 !! "SHUTTERSTOCK_API_TOKEN"%string
  = environ2 !! "SHUTTERSTOCK_API_TOKEN"%string →
  load_credentials environ1 = load_credentials environ2.
Proof. unfold load_credentials, environ_get. by intros -> ->. Qed.

Lemma session_body_ext w1 w2 c st :
  mcp_list_tools w1 = mcp_list_tools w2 → llm w1 = llm w2 →
  stdin w1 = stdin w2 →
  session_body w1 c st = session_body w2 c st.
Proof.
  intros Ht Hb Hs. unfold session_body, mbind, M_bind.
  by rw !session_setup_eq Ht Hb Hs.
Qed.

Lemma env_argument_Ok environ child :
  env_argument environ = Ok child →
  ∃ k t, set_to environ "API_KEY" k
         ∧ set_to environ "SHUTTERSTOCK_API_TOKEN" t
         ∧ child = {[ "API_KEY"%string := k;
                      "SHUTTERSTOCK_API_TOKEN"%string := t ]}.
Proof.
  unfold env_argument.
  destruct (load_credentials environ) as [[k t]|e] eqn:Hc; [|done].
  intros [= <-]. apply load_credentials_Ok in Hc as [Hk Ht]. by exists k, t.
Qed.

(** X12. The [env=] dict the script gives to [StdioServerParameters] is
    built from the two credentials alone: two environments of the script
    that agree on [API_KEY] and [SHUTTERSTOCK_API_TOKEN] give the same dict;
    it has these two names and no other, with the values of the script's
    environment; it is the dict of the parameters of every session the
    script opens; and two runs that differ only in the other variables of
    the environment are the same run. *)
Theorem env_argument_is_only_the_credentials
    (environ1 environ2 : gmap string string) :
  environ1 !! "API_KEY"%string = environ2 !! "API_KEY"%string →
  environ1 !! "SHUTTERSTOCK_API_TOKEN"%string
  = environ2 !! "SHUTTERSTOCK_API_TOKEN"%string →
  env_argument environ1 = env_argument environ2
  ∧ (∀ child, env_argument environ1 = Ok child →
       dom child = ({[ "API_KEY"; "SHUTTERSTOCK_API_TOKEN" ]}%string : gset string)
       ∧ child !! "API_KEY"%string = environ1 !! "API_KEY"%string
       ∧ child !! "SHUTTERSTOCK_API_TOKEN"%string
         = environ1 !! "SHUTTERSTOCK_API_TOKEN"%string)
  ∧ (∀ w p, environ w = environ1 →
       EvSessionOpen p ∈ trace (snd (run w)) →
       env_argument environ1 = Ok (env p))
  ∧ (∀ w1 w2, environ w1 = environ1 → environ w2 = environ2 →
       mcp_enter w1 = mcp_enter w2 → mcp_list_tools w1 = mcp_list_tools w2 →
       llm w1 = llm w2 → stdin w1 = stdin w2 →
       run w1 = run w2).
Proof.
  intros Hkey Htoken.
  pose proof (load_credentials_agree _ _ Hkey Htoken) as Hcreds.
  split_and!.
  - unfold env_argument. by rw Hcreds.
  - intros child (k & t & [Hk _] & [Ht _] & ->)%env_argument_Ok.
    rw Hk Ht. split_and!.
    + rw dom_insert_L dom_singleton_L. set_solver.
    + by rw lookup_insert_eq.
    + rw lookup_insert_ne; [done|]. by rw lookup_singleton_eq.
  - intros w p <- Hin. unfold env_argument.
    destruct (load_credentials (environ w)) as [[k t]|e] eqn:Hc.
    + destruct (mcp_enter w) as [e|] eqn:Henter.
      * revert Hin. rw run_eq Hc /= Henter. by intros ?%elem_of_nil.
      * destruct (run_opens_session w (k, t) Hc Henter) as (evs & Htr & Hno).
        revert Hin. rw Htr. intros [[= ->]|Hin]%elem_of_cons; [done|].
        rw Forall_forall in Hno. by apply Hno in Hin.
    + revert Hin. rw run_eq Hc. by intros ?%elem_of_nil.
  - intros w1 w2 <- <- Henter Htools Hllm Hstdin.
    rw !run_eq Hcreds Henter.
    destruct (load_credentials (environ w2)) as [creds|e]; [|done].
    cbn zeta. destruct (mcp_enter w2); [done|].
    by rw (session_body_ext w1 w2).
Qed.

(** Two environments with the same credentials and different other
    variables give the same dict. *)
Lemma env_argument_is_only_the_credentials_witness :
  good_environ !! "PATH"%string ≠ other_environ !! "PATH"%string
  ∧ env_argument good_environ = env_argument other_environ.
Proof.
  split; [by vm_compute|].
  apply (env_argument_is_only_the_credentials good_environ other_environ);
    by vm_compute.
Defined.

(** ** The reserved words *)

Lemma lower_ascii_eq c :
  lower_ascii c
  = if is_upper c then ascii_of_nat (nat_of_ascii c + 32) else c.
Proof. reflexivity. Qed.

(** Lower-casing a byte and comparing it with a byte that is not an
    upper-case letter is comparing the two bytes as letters. *)
Lemma lower_ascii_same_letter c d :
  is_upper d = false → Ascii.eqb (lower_ascii c) d = same_letter c d.
Proof.
  intros Hd. rw lower_ascii_eq. unfold same_letter. rw Hd.
  rw andb_false_l orb_false_r.
  destruct (is_upper c) eqn:Hc.
  - destruct (Ascii.eqb_spec c d) as [->|_]; [congruence|].
    rw andb_true_l orb_false_l.
    assert (Hn : nat_of_ascii c + 32 < 256).
    { unfold is_upper in Hc. apply andb_true_iff in Hc as [_ Hle].
      apply Nat.leb_le in Hle. lia. }
    destruct (Nat.eqb_spec (nat_of_ascii d) (nat_of_ascii c + 32)) as [Heq|Hne].
    + apply Ascii.eqb_eq. rw -Heq. apply ascii_nat_embedding.
    + apply Ascii.eqb_neq. intros Heq. apply Hne. rw -Heq.
      by rw nat_ascii_embedding.
  - by rw andb_false_l orb_false_r.
Qed.

Lemma lower_eqb_ci_equal s : ∀ t,
  Forall (λ d, is_upper d = false) (String.list_ascii_of_string t) →
  String.eqb (lower s) t = ci_equal s t.
Proof.
  induction s as [|c s IH]; intros [|d t] Ht; cbn [lower String.eqb ci_equal];
    try done.
  cbn [String.list_ascii_of_string] in Ht. apply Forall_cons in Ht as [Hd Ht].
  rw (lower_ascii_same_letter c d Hd). rw (IH t Ht).
  by destruct (same_letter c d).
Qed.

Lemma is_exit_command_ci_equal line :
  is_exit_command line = ci_equal line "exit" || ci_equal line "quit".
Proof.
  unfold is_exit_command.
  rw !lower_eqb_ci_equal //; by repeat constructor.
Qed.

(** ** An exit command whose farewell cannot be printed *)

(** C7, where the code parts from it.  The farewell is printed inside the
    [try] block, before the [break]: when that print raises an [Exception]
    (the farewell has bytes above 127, which a standard output with the
    ASCII encoding cannot take), the handler of line 150 takes the
    exception, the loop prints the report and the invitation to try again,
    and goes on: after the exit command it is waiting at the prompt, it
    reads the lines that follow, and the next thing it does is to show the
    prompt again. *)
Theorem farewell_failure_keeps_the_loop_going b l st line e :
  is_exit_command line = true →
  stdout_write b goodbye_text = Some e →
  isinstance_Exception e = true →
  stdout_write b (error_text e) = None →
  stdout_write b retry_text = None →
  interactive_loop b l [Ok line] st
  = (Blocked, log st [EvInput prompt_text; EvPrint (error_text e);
                      EvPrint retry_text])
  ∧ (∀ rest,
       interactive_loop b l (Ok line :: rest) st
       = interactive_loop b l rest
           (log st [EvInput prompt_text; EvPrint (error_text e);
                    EvPrint retry_text]))
  ∧ (∀ next rest a, heap st !! l = Some a →
       ∃ evs, trace (snd (interactive_loop b l (Ok line :: next :: rest) st))
              = trace st
                ++ [EvInput prompt_text; EvPrint (error_text e);
                    EvPrint retry_text; EvInput prompt_text] ++ evs).
Proof.
  intros Hexit Hbye He Hw1 Hw2.
  pose proof (Exception_not_KeyboardInterrupt e He) as Hk.
  assert (Hturn : ∀ rest,
    interactive_loop b l (Ok line :: rest) st
    = interactive_loop b l rest
        (log st [EvInput prompt_text; EvPrint (error_text e);
                 EvPrint retry_text])).
  { intros rest. rw interactive_loop_cons loop_body_eq Hexit Hbye.
    unfold handled. rw Hk He Hw1 Hw2. by rw log_log. }
  split_and!.
  - by rw Hturn.
  - exact Hturn.
  - intros next rest a Hl. rw Hturn.
    destruct (interactive_loop_prompts_first b l next rest
                (log st [EvInput prompt_text; EvPrint (error_text e);
                         EvPrint retry_text]) a Hl) as (evs & ->).
    exists evs. cbn. by rw -!app_assoc.
Qed.

(** On a standard output with the ASCII encoding, "exit" does not end the
    session: the script is still asking after it, and the line that follows
    goes to the orchestrator. *)
Lemma farewell_failure_keeps_the_loop_going_witness :
  is_exit_command "exit" = true
  ∧ stdout_write ascii_backend goodbye_text = Some UnicodeEncodeError
  ∧ interactive_loop ascii_backend 0 [Ok "exit"%string] demo_loop_start
    = (Blocked,
       log demo_loop_start
         [EvInput prompt_text; EvPrint (error_text UnicodeEncodeError);
          EvPrint retry_text])
  ∧ fst (run (demo_world ascii_backend [Ok "exit"; Ok "hello"]%string))
    = Blocked
  ∧ prompts (trace (snd (run (demo_world ascii_backend
                                [Ok "exit"; Ok "hello"]%string)))) = 2
  ∧ last (trace (snd (run (demo_world ascii_backend
                             [Ok "exit"; Ok "hello"]%string))))
    = Some (EvAgentCall 0
              (orchestrator_config
                 (MCPAgentTool <$> ["search_shutterstock"; "echo"]%string))
              "hello").
Proof.
  split_and!;
    [by vm_compute|by vm_compute| |by vm_compute|by vm_compute|by vm_compute].
  apply (farewell_failure_keeps_the_loop_going ascii_backend 0 demo_loop_start
           "exit" UnicodeEncodeError); by vm_compute.
Defined.

(** ** An exit command whose farewell is printed *)

(** Up to its first exit command, a run is the opening of the session, the
    setup, the turns before the command, and the farewell. *)
Lemma run_until_exit w creds l st0 st1 pre line rest :
  load_credentials (environ w) = Ok creds →
  mcp_enter w = None →
  session_setup w
    {| server_parameters := stdio_server_parameters (fst creds) (snd creds) |}
    (log init_process
       [EvSessionOpen (stdio_server_parameters (fst creds) (snd creds))])
  = (Ret l, st0) →
  stdin w = pre ++ Ok line :: rest →
  interactive_loop (llm w) l pre st0 = (Blocked, st1) →
  is_exit_command line = true →
  stdout_write (llm w) goodbye_text = None →
  run w = (Ret tt, log st1 [EvInput prompt_text; EvPrint goodbye_text;
                            EvSessionClose]).
Proof.
  intros Hc Henter Hsetup Hstdin Hpre Hexit Hbye.
  rw (run_of_loop w creds l st0 Hc Henter Hsetup) Hstdin.
  rw (interactive_loop_app _ _ _ _ _ _ Hpre).
  rw interactive_loop_cons loop_body_eq Hexit Hbye. by rw log_log.
Qed.

(** X11. A line is an exit command exactly when it equals "exit" or "quit"
    up to the case of its letters.  On such a line the orchestrator is not
    called; when the standard output takes the farewell, the loop prints it
    and stops at once, whatever lines follow, and the script leaves the
    [with] statement and runs off its end, so the exit status is 0.  On any
    other line the loop calls the orchestrator with that line. *)
Theorem exit_and_quit_end_the_session line :
  (is_exit_command line = true
   ↔ ci_equal line "exit" = true ∨ ci_equal line "quit" = true)
  ∧ (is_exit_command line = true →
     ∀ b l st,
       ∃ evs, trace (snd (loop_body b l (Ok line) st)) = trace st ++ evs
              ∧ Forall (λ ev, ∀ l' a q, ev ≠ EvAgentCall l' a q) evs)
  ∧ (is_exit_command line = true →
     ∀ b l rest st,
       stdout_write b goodbye_text = None →
       interactive_loop b l (Ok line :: rest) st
       = (Ret tt, log st [EvInput prompt_text; EvPrint goodbye_text]))
  ∧ (is_exit_command line = true →
     ∀ w creds l st0 st1 pre rest,
       load_credentials (environ w) = Ok creds →
       mcp_enter w = None →
       session_setup w
         {| server_parameters :=
              stdio_server_parameters (fst creds) (snd creds) |}
         (log init_process
            [EvSessionOpen (stdio_server_parameters (fst creds) (snd creds))])
       = (Ret l, st0) →
       stdin w = pre ++ Ok line :: rest →
       interactive_loop (llm w) l pre st0 = (Blocked, st1) →
       stdout_write (llm w) goodbye_text = None →
       run w = (Ret tt, log st1 [EvInput prompt_text; EvPrint goodbye_text;
                                 EvSessionClose])
       ∧ exit_code (fst (run w)) = Some 0%Z)
  ∧ (is_exit_command line = false →
     ∀ b l rest st a,
       heap st !! l = Some a →
       ∃ evs, trace (snd (interactive_loop b l (Ok line :: rest) st))
              = trace st ++ [EvInput prompt_text; EvAgentCall l a line] ++ evs).
Proof.
  split_and!.
  - rw is_exit_command_ci_equal. apply orb_true_iff.
  - intros Hexit b l st. rw loop_body_eq Hexit.
    assert (Hin : ∀ ev : event, (∃ s, ev = EvInput s ∨ ev = EvPrint s) →
              ∀ l' a q, ev ≠ EvAgentCall l' a q).
    { intros ev [s [->| ->]]; done. }
    destruct (stdout_write b goodbye_text) as [e|]; cbn [snd].
    + destruct (handled_events b (λ ev, ∀ l' a q, ev ≠ EvAgentCall l' a q))
        with (e := e) (st := log st [EvInput prompt_text])
        as (evs & Htr & Hevs & _); try done.
      exists ([EvInput prompt_text] ++ evs). rw Htr. cbn. rw -app_assoc.
      split; [done|]. by constructor.
    + eexists. split; [reflexivity|]. by repeat constructor.
  - intros Hexit b l rest st Hbye.
    by rw interactive_loop_cons loop_body_eq Hexit Hbye.
  - intros Hexit w creds l st0 st1 pre rest Hc Henter Hsetup Hstdin Hpre Hbye.
    rw (run_until_exit w creds l st0 st1 pre line rest) //.
  - intros Hexit b l rest st a Hl. by apply interactive_loop_dispatch.
Qed.

(** After one turn, "EXIT" ends the session with status 0. *)
Lemma exit_and_quit_end_the_session_witness :
  is_exit_command "EXIT" = true
  ∧ ci_equal "EXIT" "exit" = true
  ∧ exit_code (fst (run (demo_world echo_backend
                           [Ok "hello"; Ok "EXIT"; Ok "more"]%string)))
    = Some 0%Z
  ∧ prompts (trace (snd (run (demo_world echo_backend
                                [Ok "hello"; Ok "EXIT"; Ok "more"]%string))))
    = 2.
Proof.
  assert (Hexit : is_exit_command "EXIT" = true) by reflexivity.
  destruct (exit_and_quit_end_the_session "EXIT") as (Hci & _ & _ & Hrun & _).
  split_and!; [done|by vm_compute| |by vm_compute].
  set (w := demo_world echo_backend [Ok "hello"; Ok "EXIT"; Ok "more"]%string).
  apply (Hrun Hexit w ("k-123", "t-456")%string 0 demo_loop_start
           (snd (interactive_loop echo_backend 0 [Ok "hello"%string]
                   demo_loop_start))
           [Ok "hello"%string] [Ok "more"%string]); by vm_compute.
Defined.

(** * Further properties of the script *)

(** ** A closed standard input *)

(** X1. However many times in a row [input()] raises an [Exception] (as it
    does with [EOFError] on a closed standard input), the loop neither ends
    nor raises, as long as the standard output takes the two lines of the
    report: each time it shows the prompt, prints the report and the
    invitation to try again, and asks once more. *)
Theorem failed_reads_never_end_the_loop b l e n : ∀ st,
  isinstance_Exception e = true →
  stdout_write b (error_text e) = None →
  stdout_write b retry_text = None →
  interactive_loop b l (replicate n (Raised e)) st
  = (Blocked, log st (concat (replicate n (failed_input_events e)))).
Proof.
  intros st He Hw1 Hw2.
  pose proof (Exception_not_KeyboardInterrupt e He) as Hk.
  revert st. induction n as [|n IH]; intros st.
  - cbn. by rw log_nil.
  - cbn [replicate concat].
    rw interactive_loop_cons loop_body_eq. unfold handled. rw Hk He Hw1 Hw2.
    by rw IH !log_log.
Qed.

Lemma failed_reads_never_end_the_loop_witness :
  isinstance_Exception EOFError = true
  ∧ fst (interactive_loop echo_backend 0 (replicate 3 (Raised EOFError))
           demo_loop_start) = Blocked
  ∧ prompts (trace (snd (interactive_loop echo_backend 0
                           (replicate 3 (Raised EOFError)) demo_loop_start)))
    = 3.
Proof.
  split; [reflexivity|].
  rw (failed_reads_never_end_the_loop echo_backend 0 EOFError 3
        demo_loop_start eq_refl eq_refl eq_refl).
  split; by vm_compute.
Defined.

(** ** What counts as an exit command *)

Lemma ci_equal_length s : ∀ t,
  ci_equal s t = true → String.length s = String.length t.
Proof.
  induction s as [|c s IH]; intros [|d t]; cbn; try done.
  intros [_ Hst]%andb_true_iff. by rw (IH t Hst).
Qed.

(** X2. An exit command has exactly four bytes: the line is compared as a
    whole, without stripping blanks, so the empty line, a padded
    [" exit"] or a longer line is no exit command and is sent to the
    orchestrator as it is. *)
Theorem exit_command_is_four_bytes line :
  String.length line ≠ 4 →
  is_exit_command line = false
  ∧ ∀ b l rest st a,
      heap st !! l = Some a →
      ∃ evs, trace (snd (interactive_loop b l (Ok line :: rest) st))
             = trace st ++ [EvInput prompt_text; EvAgentCall l a line] ++ evs.
Proof.
  intros Hlen.
  assert (Hexit : is_exit_command line = false).
  { rw is_exit_command_ci_equal. apply orb_false_iff.
    split; apply not_true_iff_false; intros Hci%ci_equal_length; done. }
  split; [done|]. intros b l rest st a Hl.
  by apply interactive_loop_dispatch.
Qed.

Lemma exit_command_is_four_bytes_witness :
  String.length " exit" ≠ 4
  ∧ is_exit_command " exit" = false
  ∧ is_exit_command "" = false.
Proof.
  split; [by vm_compute|]. split.
  - apply (exit_command_is_four_bytes " exit"). by vm_compute.
  - apply (exit_command_is_four_bytes ""). by vm_compute.
Defined.

(** ** The orchestrator from turn to turn *)

(** X3. The orchestrator is one object for the whole loop: when the call for
    a line returns, or raises an [Exception] that the loop reports, the call
    for the next line is made on the same object, with the history the first
    call left in it.  Between the two calls the trace has only the calls of
    the sub-agents that [weather_assistant] built during the first one, and
    the two lines of the report. *)
Theorem orchestrator_history_carries_over b l st a line1 line2 rest :
  heap st !! l = Some a →
  is_exit_command line1 = false →
  is_exit_command line2 = false →
  (∀ e, fst (agent_invoke b a line1) = Raised e →
        isinstance_Exception e = true
        ∧ stdout_write b (error_text e) = None
        ∧ stdout_write b retry_text = None) →
  ∃ subs evs,
    Forall (new_sub_agent_call st) subs
    ∧ trace (turn_state b l a line1 st)
      = trace st ++ [EvInput prompt_text; EvAgentCall l a line1] ++ subs
    ∧ trace (snd (interactive_loop b l (Ok line1 :: Ok line2 :: rest) st))
      = trace st
        ++ [EvInput prompt_text; EvAgentCall l a line1]
        ++ subs
        ++ match fst (agent_invoke b a line1) with
           | Ok _ => []
           | Raised e => [EvPrint (error_text e); EvPrint retry_text]
           end
        ++ [EvInput prompt_text;
            EvAgentCall l (set_messages a (snd (agent_invoke b a line1))) line2]
        ++ evs.
Proof.
  intros Hl Hexit1 Hexit2 Hexc.
  destruct (turn_state_trace b l a line1 st) as (subs & Htr1 & Hsubs).
  pose proof (turn_state_heap b l a line1 st) as Hl1.
  exists subs. rw interactive_loop_cons loop_body_eq Hexit1 Hl.
  set (st1 := turn_state b l a line1 st) in *.
  destruct (fst (agent_invoke b a line1)) as [x|e].
  - destruct (interactive_loop_dispatch b l line2 rest st1 _ Hl1 Hexit2)
      as (evs & ->).
    exists evs. split_and!; [done|done|]. rw Htr1. by rw -!app_assoc.
  - destruct (Hexc e eq_refl) as (He & Hw1 & Hw2).
    unfold handled. rw (Exception_not_KeyboardInterrupt e He) He Hw1 Hw2.
    set (st2 := log st1 _).
    destruct (interactive_loop_dispatch b l line2 rest st2 _ Hl1 Hexit2)
      as (evs & ->).
    exists evs. split_and!; [done|done|]. unfold st2. cbn. rw Htr1.
    by rw -!app_assoc.
Qed.

Lemma orchestrator_history_carries_over_witness :
  ∃ evs,
    trace (snd (interactive_loop weather_backend 0 [Ok "one"; Ok "two"]%string
                  demo_loop_start))
    = trace demo_loop_start
      ++ [EvInput prompt_text;
          EvAgentCall 0 (orchestrator_config
                           (MCPAgentTool <$> ["search_shutterstock"; "echo"]%string))
            "one";
          EvAgentCall 1 weather_agent_config "one";
          EvInput prompt_text;
          EvAgentCall 0
            (set_messages
               (orchestrator_config
                  (MCPAgentTool <$> ["search_shutterstock"; "echo"]%string))
               [ {| msg_role := user; msg_content := "one" |};
                 {| msg_role := assistant; msg_content := "one" |} ])
            "two"]
      ++ evs.
Proof.
  destruct (orchestrator_history_carries_over weather_backend 0 demo_loop_start
              (orchestrator_config
                 (MCPAgentTool <$> ["search_shutterstock"; "echo"]%string))
              "one" "two" []) as (subs & evs & _ & Hsubs & Htr);
    [by vm_compute..| |].
  - intros e. by vm_compute.
  - exists evs. rw Htr.
    assert (Hs : subs = [EvAgentCall 1 weather_agent_config "one"]).
    { apply (app_inv_head
               (trace demo_loop_start
                ++ [EvInput prompt_text;
                    EvAgentCall 0
                      (orchestrator_config
                         (MCPAgentTool <$> ["search_shutterstock"; "echo"]%string))
                      "one"])).
      rw -app_assoc -Hsubs. by vm_compute. }
    rw Hs. by vm_compute.
Defined.

(** ** What the script prints *)

Section RunEvents.
Variable P : event → Prop.
Hypothesis P_input : P (EvInput prompt_text).
Hypothesis P_goodbye : P (EvPrint goodbye_text).
Hypothesis P_interrupted : P (EvPrint interrupted_text).
Hypothesis P_retry : P (EvPrint retry_text).
Hypothesis P_error : ∀ e, isinstance_Exception e = true → P (EvPrint (error_text e)).
Hypothesis P_call : ∀ l a q, P (EvAgentCall l a q).
Hypothesis P_open : ∀ p, P (EvSessionOpen p).
Hypothesis P_close : P EvSessionClose.
Hypothesis P_list : P EvListTools.
Hypothesis P_banner : P (EvPrint banner_text).
Hypothesis P_hint : P (EvPrint hint_text).

(** What holds of every event the pieces of the script can add holds of
    every event of a run. *)
Lemma run_events w : Forall P (trace (snd (run w))).
Proof.
  rw run_eq.
  destruct (load_credentials (environ w)) as [creds|e]; [|constructor].
  cbn zeta. destruct (mcp_enter w) as [e|]; [constructor|].
  unfold session_body, mbind, M_bind. rw session_setup_eq.
  destruct (mcp_list_tools w) as [names|e]; cbn zeta;
    [|cbn; repeat constructor; auto].
  destruct (agent_init _ _) as [e|]; [cbn; repeat constructor; auto|].
  destruct (stdout_write (llm w) banner_text);
    [cbn; repeat constructor; auto|].
  destruct (stdout_write (llm w) hint_text);
    [cbn; repeat constructor; auto|].
  set (l := fresh _). set (st1 := log _ _).
  destruct (interactive_loop_events (llm w) l P (λ _, True) (λ _ _ _, I)
              P_input P_goodbye P_interrupted P_retry P_error
              (λ a q _, P_call l a q)
              (λ l' q _, P_call l' weather_agent_config q)
              (stdin w) st1 (orchestrator_config (MCPAgentTool <$> names)))
    as (evs & a' & Htr & Hevs & _); [|done|].
  { unfold st1. cbn. by rw lookup_insert_eq. }
  assert (Hst1 : Forall P (trace st1)).
  { unfold st1. cbn. repeat constructor; auto. }
  destruct (interactive_loop _ _ _ _) as [[[]|e|] st2]; cbn [fst snd] in *;
    cbn; rw Htr; repeat (apply Forall_app; split); try done;
    by repeat constructor.
Qed.
End RunEvents.

(** X4. Every line the script prints is one of its five fixed texts (banner,
    hint, farewell, interruption, invitation to try again) or the report of
    an [Exception]: the response of the orchestrator is bound to a variable
    and never printed by the script itself. *)
Theorem script_prints_only_its_own_texts w :
  Forall prints_script_text (trace (snd (run w))).
Proof.
  apply run_events; try done; cbn; unfold script_text.
  - left. set_solver.
  - left. set_solver.
  - left. set_solver.
  - intros e He. right. by exists e.
  - left. set_solver.
  - left. set_solver.
Qed.

(** ** Listing the tools *)

Lemma tool_listings_app tr1 tr2 :
  tool_listings (tr1 ++ tr2) = tool_listings tr1 + tool_listings tr2.
Proof. unfold tool_listings. by rw filter_app length_app. Qed.

Lemma turn_events_no_listing l ts evs :
  Forall (turn_event l ts) evs →
  tool_listings evs = 0 ∧ sessions_opened evs = 0
  ∧ Forall (λ ev, ev ≠ EvListTools) evs.
Proof.
  induction 1 as [|ev evs Hev _ (IHl & IHo & IHf)];
    [by split_and!; [..|constructor]|].
  change (ev :: evs) with ([ev] ++ evs).
  rw tool_listings_app sessions_opened_app IHl IHo.
  split_and!; [by destruct ev..|]. constructor; [|done]. by destruct ev.
Qed.

(** The trace of a run that got past [__enter__]: the opening, the
    listing, then events among which there is no listing and no opening. *)
Lemma run_shape w :
  trace (snd (run w)) = []
  ∨ ∃ p evs, trace (snd (run w)) = EvSessionOpen p :: EvListTools :: evs
             ∧ tool_listings evs = 0 ∧ sessions_opened evs = 0
             ∧ Forall (λ ev, ev ≠ EvListTools) evs.
Proof.
  rw run_eq.
  destruct (load_credentials (environ w)) as [creds|e]; [|by left].
  cbn zeta. destruct (mcp_enter w) as [e|]; [by left|]. right.
  unfold session_body, mbind, M_bind. rw session_setup_eq.
  assert (Hfew : ∀ evs : list event,
            Forall (λ ev, ∃ s, ev = EvPrint s ∨ ev = EvSessionClose) evs →
            tool_listings evs = 0 ∧ sessions_opened evs = 0
            ∧ Forall (λ ev, ev ≠ EvListTools) evs).
  { induction 1 as [|ev evs [s [->| ->]] _ (IHl & IHo & IHf)];
      [by split_and!; [..|constructor]|..];
      (split_and!; [exact IHl|exact IHo|by constructor]). }
  assert (Hpr : ∀ s, ∃ s', EvPrint s = EvPrint s' ∨ EvPrint s = EvSessionClose)
    by (intros s; exists s; by left).
  assert (Hcl : ∃ s' : string, EvSessionClose = EvPrint s'
                               ∨ EvSessionClose = EvSessionClose)
    by (exists EmptyString; by right).
  destruct (mcp_list_tools w) as [names|e]; cbn zeta;
    [|cbn; eexists _, _; split; [reflexivity|]; apply Hfew;
      by repeat constructor].
  destruct (agent_init _ _) as [e|];
    [cbn; eexists _, _; split; [reflexivity|]; apply Hfew;
     by repeat constructor|].
  destruct (stdout_write (llm w) banner_text);
    [cbn; eexists _, _; split; [reflexivity|]; apply Hfew;
     by repeat constructor|].
  destruct (stdout_write (llm w) hint_text);
    [cbn; eexists _, _; split; [reflexivity|]; apply Hfew;
     by repeat constructor|].
  set (l := fresh _). set (st1 := log _ _).
  destruct (interactive_loop_inv (llm w) l
              (tools (orchestrator_config (MCPAgentTool <$> names)))
              (stdin w) st1 (orchestrator_config (MCPAgentTool <$> names)))
    as (evs & _ & Htr & Hevs & _).
  { unfold st1. cbn. by rw lookup_insert_eq. }
  { done. }
  destruct (turn_events_no_listing _ _ _ Hevs) as (Hl0 & Ho0 & Hf0).
  destruct (Hfew [EvPrint banner_text; EvPrint hint_text])
    as (Hl1 & Ho1 & Hf1); [by repeat constructor|].
  destruct (Hfew [EvSessionClose]) as (Hl2 & Ho2 & Hf2);
    [by repeat constructor|].
  destruct (interactive_loop _ _ _ _) as [[[]|e|] st2]; cbn [fst snd] in *;
    cbn; rw Htr; unfold st1; cbn.
  - eexists _, ([EvPrint banner_text; EvPrint hint_text] ++ evs
                ++ [EvSessionClose]).
    split; [by rw -?app_assoc|].
    rw !tool_listings_app !sessions_opened_app Hl0 Ho0 Hl1 Ho1 Hl2 Ho2.
    split_and!; [done..|]. by repeat (apply Forall_app; split).
  - eexists _, ([EvPrint banner_text; EvPrint hint_text] ++ evs
                ++ [EvSessionClose]).
    split; [by rw -?app_assoc|].
    rw !tool_listings_app !sessions_opened_app Hl0 Ho0 Hl1 Ho1 Hl2 Ho2.
    split_and!; [done..|]. by repeat (apply Forall_app; split).
  - eexists _, ([EvPrint banner_text; EvPrint hint_text] ++ evs).
    split; [reflexivity|].
    rw !tool_listings_app !sessions_opened_app Hl0 Ho0 Hl1 Ho1.
    split_and!; [done..|]. by apply Forall_app.
Qed.

(** X5. The tools of the server are listed once per session, as the first
    thing after the session is opened, and never again: a run has as many
    listings as sessions, and a listing can only be the second event of the
    trace. *)
Theorem tools_listed_once_per_session w :
  tool_listings (trace (snd (run w))) = sessions_opened (trace (snd (run w)))
  ∧ tool_listings (trace (snd (run w))) ≤ 1
  ∧ ∀ i, trace (snd (run w)) !! i = Some EvListTools → i = 1.
Proof.
  destruct (run_shape w) as [->|(p & evs & -> & Hl & Ho & Hf)].
  - split_and!; [done|by change (tool_listings []) with 0; lia|].
    intros i. by rw lookup_nil.
  - change (EvSessionOpen p :: EvListTools :: evs)
      with ([EvSessionOpen p; EvListTools] ++ evs).
    rw tool_listings_app sessions_opened_app Hl Ho.
    change (tool_listings [EvSessionOpen p; EvListTools]) with 1.
    change (sessions_opened [EvSessionOpen p; EvListTools]) with 1.
    split_and!; [done|lia|].
    intros [|[|i]]; cbn; [done..|]. intros Hi.
    rw Forall_forall in Hf. exfalso. apply (Hf EvListTools); [|done].
    apply list_elem_of_lookup. by exists i.
Qed.

(** ** A setup that fails *)

(** X6. When the listing of the tools raises, or the construction of the
    orchestrator raises, the script prints nothing and shows no prompt: the
    session is torn down and the exception is raised out of the script. *)
Theorem setup_failure_closes_the_session w creds e :
  load_credentials (environ w) = Ok creds →
  mcp_enter w = None →
  (mcp_list_tools w = Raised e
   ∨ ∃ names, mcp_list_tools w = Ok names
              ∧ agent_init (llm w) (orchestrator_config (MCPAgentTool <$> names))
                = Some e) →
  run w = (Raise e,
           log init_process
             [EvSessionOpen (stdio_server_parameters (fst creds) (snd creds));
              EvListTools; EvSessionClose]).
Proof.
  intros Hc Henter Hfail. rw run_eq Hc. cbn zeta. rw Henter.
  unfold session_body, mbind, M_bind. rw session_setup_eq.
  destruct Hfail as [->|(names & -> & Hinit)].
  - by rw !log_log.
  - cbn zeta. rw Hinit. by rw !log_log.
Qed.

Lemma setup_failure_closes_the_session_witness :
  run broken_server_world
  = (Raise (ConnectionError "server exited"),
     log init_process
       [EvSessionOpen (stdio_server_parameters "k-123" "t-456");
        EvListTools; EvSessionClose]).
Proof.
  apply (setup_failure_closes_the_session broken_server_world
           ("k-123", "t-456")%string (ConnectionError "server exited"));
    [by vm_compute..|]. by left.
Defined.

(** ** Interrupts and other exceptions, seen from the process *)

(** X7. A [KeyboardInterrupt] raised by [input()], after any turns that kept
    the loop going, ends the script as [exit] does when the standard output
    takes the interruption message: the message is printed, the session is
    torn down, and the script runs off its end, so the exit status is 0 and
    not that of an interrupted process. *)
Theorem interrupt_at_prompt_exits_with_status_0 w creds l st0 st1 pre rest e :
  load_credentials (environ w) = Ok creds →
  mcp_enter w = None →
  session_setup w
    {| server_parameters := stdio_server_parameters (fst creds) (snd creds) |}
    (log init_process
       [EvSessionOpen (stdio_server_parameters (fst creds) (snd creds))])
  = (Ret l, st0) →
  stdin w = pre ++ Raised e :: rest →
  interactive_loop (llm w) l pre st0 = (Blocked, st1) →
  isinstance_KeyboardInterrupt e = true →
  stdout_write (llm w) interrupted_text = None →
  run w = (Ret tt, log st1 [EvInput prompt_text; EvPrint interrupted_text;
                            EvSessionClose])
  ∧ exit_code (fst (run w)) = Some 0%Z.
Proof.
  intros Hc Henter Hsetup Hstdin Hpre Hk Hw.
  rw (run_of_loop w creds l st0 Hc Henter Hsetup) Hstdin.
  rw (interactive_loop_app _ _ _ _ _ _ Hpre).
  rw interactive_loop_cons loop_body_eq. unfold handled. rw Hk Hw.
  by rw !log_log.
Qed.

Lemma interrupt_at_prompt_exits_with_status_0_witness :
  exit_code (fst (run (demo_world echo_backend
                         [Ok "hello"%string; Raised KeyboardInterrupt_exn;
                          Ok "more"%string])))
  = Some 0%Z.
Proof.
  set (w := demo_world echo_backend
              [Ok "hello"%string; Raised KeyboardInterrupt_exn; Ok "more"%string]).
  apply (interrupt_at_prompt_exits_with_status_0 w ("k-123", "t-456")%string 0
           demo_loop_start
           (snd (interactive_loop echo_backend 0 [Ok "hello"%string]
                   demo_loop_start))
           [Ok "hello"%string] [Ok "more"%string] KeyboardInterrupt_exn);
    by vm_compute.
Defined.

(** X8. An exception that is neither a [KeyboardInterrupt] nor an
    [Exception] (a [SystemExit], a [GeneratorExit]) is taken by no handler of
    the loop: raised by [input()] or by the call of the orchestrator, it
    leaves the loop at once, nothing is printed for it and no further line
    is read; the session is still torn down before it leaves the script. *)
Theorem other_exceptions_leave_the_loop b l st rest e :
  isinstance_KeyboardInterrupt e = false →
  isinstance_Exception e = false →
  interactive_loop b l (Raised e :: rest) st
  = (Raise e, log st [EvInput prompt_text])
  ∧ (∀ a line,
       heap st !! l = Some a →
       is_exit_command line = false →
       fst (agent_invoke b a line) = Raised e →
       interactive_loop b l (Ok line :: rest) st
       = (Raise e, turn_state b l a line st))
  ∧ (∀ w creds st0 st1 pre,
       load_credentials (environ w) = Ok creds →
       mcp_enter w = None →
       session_setup w
         {| server_parameters :=
              stdio_server_parameters (fst creds) (snd creds) |}
         (log init_process
            [EvSessionOpen (stdio_server_parameters (fst creds) (snd creds))])
       = (Ret l, st0) →
       stdin w = pre ++ Raised e :: rest →
       interactive_loop (llm w) l pre st0 = (Blocked, st1) →
       run w = (Raise e, log st1 [EvInput prompt_text; EvSessionClose]))
  ∧ (∀ w creds st0 st1 pre a line,
       load_credentials (environ w) = Ok creds →
       mcp_enter w = None →
       session_setup w
         {| server_parameters :=
              stdio_server_parameters (fst creds) (snd creds) |}
         (log init_process
            [EvSessionOpen (stdio_server_parameters (fst creds) (snd creds))])
       = (Ret l, st0) →
       stdin w = pre ++ Ok line :: rest →
       interactive_loop (llm w) l pre st0 = (Blocked, st1) →
       heap st1 !! l = Some a →
       is_exit_command line = false →
       fst (agent_invoke (llm w) a line) = Raised e →
       run w = (Raise e,
                log (turn_state (llm w) l a line st1) [EvSessionClose])).
Proof.
  intros Hk He. split_and!.
  - rw interactive_loop_cons loop_body_eq. unfold handled. by rw Hk He.
  - intros a line Hl Hexit Hr.
    rw interactive_loop_cons loop_body_eq Hexit Hl Hr.
    unfold handled. by rw Hk He.
  - intros w creds st0 st1 pre Hc Henter Hsetup Hstdin Hpre.
    rw (run_of_loop w creds l st0 Hc Henter Hsetup) Hstdin.
    rw (interactive_loop_app _ _ _ _ _ _ Hpre).
    rw interactive_loop_cons loop_body_eq. unfold handled. rw Hk He.
    by rw !log_log.
  - intros w creds st0 st1 pre a line Hc Henter Hsetup Hstdin Hpre Hl Hexit Hr.
    rw (run_of_loop w creds l st0 Hc Henter Hsetup) Hstdin.
    rw (interactive_loop_app _ _ _ _ _ _ Hpre).
    rw interactive_loop_cons loop_body_eq Hexit Hl Hr. unfold handled.
    by rw Hk He.
Qed.

Lemma other_exceptions_leave_the_loop_witness :
  isinstance_KeyboardInterrupt SystemExit_exn = false
  ∧ isinstance_Exception SystemExit_exn = false
  ∧ interactive_loop echo_backend 0
      [Raised SystemExit_exn; Ok "more"%string] demo_loop_start
    = (Raise SystemExit_exn, log demo_loop_start [EvInput prompt_text]).
Proof.
  split_and!; [reflexivity..|].
  by apply (other_exceptions_leave_the_loop echo_backend 0 demo_loop_start
              [Ok "more"%string] SystemExit_exn).
Defined.

(** ** A run that is waiting *)

(** X9. While the script is waiting in [input()], its session is open: the
    trace of a run that has not ended starts with the opening of the one
    session and has no teardown. *)
Theorem waiting_run_has_open_session w :
  fst (run w) = Blocked →
  sessions_opened (trace (snd (run w))) = 1
  ∧ sessions_closed (trace (snd (run w))) = 0
  ∧ ∃ p evs, trace (snd (run w)) = EvSessionOpen p :: evs.
Proof.
  intros Hb.
  destruct (run_trace w) as [[_ [e He]]|(p & evs & Hevs & [[_ Htr]|[Hnb _]])];
    [congruence| |done].
  destruct (body_events_no_session _ _ _ Hevs) as [Ho Hc].
  rw Htr. change (EvSessionOpen p :: evs) with ([EvSessionOpen p] ++ evs).
  rw sessions_opened_app sessions_closed_app Ho Hc.
  split_and!; [done..|]. by exists p, evs.
Qed.

Lemma waiting_run_has_open_session_witness :
  fst (run (demo_world echo_backend [Ok "hello"%string])) = Blocked
  ∧ sessions_closed
      (trace (snd (run (demo_world echo_backend [Ok "hello"%string])))) = 0.
Proof.
  split; [by vm_compute|].
  apply (waiting_run_has_open_session
           (demo_world echo_backend [Ok "hello"%string])).
  by vm_compute.
Defined.
